(** * Lunarr agent broker: registry service, store contract and health probes

    A shallow embedding of the Go packages [registry], [store] and [handler]
    of the agent broker, together with the properties its specification
    states about them.

    Modelling conventions.
    - A Go [string] is a byte sequence: [String.string], whose [length] is
      Go's [len].
    - A Go [int] is a [Z]; no arithmetic is performed on the integers that
      appear here, so no wrap-around is involved.
    - A [time.Time] is a [Z] (an instant on the time line).
    - A Go [error] is a value of the inductive [error]; the [nil] error is
      [None] in an [option error], and a [(T, error)] result is a [result T].
    - Calls across an interface boundary (the [Store] interface, the Qdrant
      client, [time.Now]) are the nodes of a program tree [prog]; a handler
      for the calls runs the tree and records the calls that were made. *)

From Stdlib Require Import String Ascii List ZArith Lia Bool Arith.
From Stdlib Require Import Sorted Permutation DecimalString DecimalNat DecimalZ.
Import ListNotations.

Local Open Scope string_scope.

(** ** Go errors *)

Inductive error : Type :=
| ErrNotFound                               (* store.ErrNotFound *)
| ErrAlreadyExists                          (* store.ErrAlreadyExists *)
| Errorf (msg : string)                     (* fmt.Errorf without %w *)
| Wrapf (prefix : string) (cause : error)   (* fmt.Errorf("prefix%w", cause) *)
| ErrExternal (msg : string).               (* an error of a dependency *)

(** [err.Error()] *)
Fixpoint error_message (e : error) : string :=
  match e with
  | ErrNotFound => "agent not found"
  | ErrAlreadyExists => "agent already exists"
  | Errorf msg => msg
  | Wrapf prefix cause => prefix ++ error_message cause
  | ErrExternal msg => msg
  end.

Inductive result (T : Type) : Type :=
| Ok (v : T)
| Err (e : error).
Arguments Ok {T} v.
Arguments Err {T} e.

Definition is_ok {T} (r : result T) : bool :=
  match r with Ok _ => true | Err _ => false end.

(** ** Strings: [strings.Join] and [%d] *)

Fixpoint Join (elems : list string) (sep : string) : string :=
  match elems with
  | [] => ""
  | [x] => x
  | x :: rest => x ++ sep ++ Join rest sep
  end.

(** [fmt.Sprintf("%d", i)] for a non-negative index. *)
Definition itoa (i : nat) : string := NilEmpty.string_of_uint (Nat.to_uint i).

Definition is_empty (s : string) : bool :=
  match s with EmptyString => true | String _ _ => false end.

(** ** Package a2a: the fields of the agent card the broker reads *)

Module a2a.

Record AgentSkill : Type := {
  SkillID : string;     (* AgentSkill.ID *)
  SkillName : string    (* AgentSkill.Name *)
}.

Record AgentCard : Type := {
  Name : string;
  Description : string;
  URL : string;
  Version : string;
  Skills : list AgentSkill
}.

End a2a.

(** ** Package store: records, filters, the Store interface *)

Definition Time := Z.
Definition float32 := Z.   (* the bit pattern of a float32 *)

Module store.

Record RegisteredAgent : Type := {
  ID : string;
  Card : a2a.AgentCard;
  Tags : list string;
  Embedding : option (list float32);   (* nil slice = None *)
  CreatedAt : Time;
  UpdatedAt : Time
}.

Record AgentFilter : Type := {
  Offset : Z;
  Limit : Z;
  FilterTags : list string;
  FilterSkills : list string;
  Query : string
}.

Record AgentListResult : Type := {
  Agents : list RegisteredAgent;
  Total : Z
}.

(** The methods of [Store]; the index is the Go result type. *)
Inductive Call : Type -> Type :=
| Ping : Call (option error)
| Close : Call (option error)
| CreateAgent (agent : RegisteredAgent) : Call (option error)
| GetAgent (id : string) : Call (result RegisteredAgent)
| ListAgents (filter : AgentFilter) : Call (result AgentListResult)
| UpdateAgent (agent : RegisteredAgent) : Call (option error)
| DeleteAgent (id : string) : Call (option error).

End store.

(** ** Programs over external calls *)

Inductive prog (E : Type -> Type) (R : Type) : Type :=
| Ret (r : R)
| Vis {X : Type} (e : E X) (k : X -> prog E R).
Arguments Ret {E R} r.
Arguments Vis {E R X} e k.

Fixpoint bind {E R S} (p : prog E R) (f : R -> prog E S) : prog E S :=
  match p with
  | Ret r => f r
  | Vis e k => Vis e (fun x => bind (k x) f)
  end.

Definition call {E X} (e : E X) : prog E X := Vis e Ret.

Declare Scope prog_scope.
Delimit Scope prog_scope with prog.
Notation "x <- p ;; q" := (bind p (fun x => q))
  (at level 61, p at next level, right associativity) : prog_scope.

(** One call that was made, with the answer it got. *)
Inductive entry (E : Type -> Type) : Type :=
| Entry {X : Type} (e : E X) (x : X).
Arguments Entry {E X} e x.

Section Run.
Context {E : Type -> Type} {W : Type}.
(** How the world answers a call, and what it becomes. *)
Variable answer : forall X, E X -> W -> X * W.

Fixpoint run {R} (p : prog E R) (w : W) : R * W * list (entry E) :=
  match p with
  | Ret r => (r, w, [])
  | Vis e k =>
      let '(x, w1) := answer _ e w in
      let '(r, w2, tr) := run (k x) w1 in
      (r, w2, Entry e x :: tr)
  end.
End Run.

(** ** Package registry: validation *)

Module registry.

Import a2a store.

(** [agentIDPattern = regexp.MustCompile(`^[a-zA-Z0-9_-]+$`)].  The class
    holds ASCII bytes only, and every byte of a multi-byte or invalid
    UTF-8 sequence belongs to a rune outside the class, so matching the
    class byte by byte is matching it rune by rune. *)
Definition in_range (lo hi c : ascii) : bool :=
  (nat_of_ascii lo <=? nat_of_ascii c)%nat && (nat_of_ascii c <=? nat_of_ascii hi)%nat.

Definition agentIDClass (c : ascii) : bool :=
  in_range "a" "z" c || in_range "A" "Z" c || in_range "0" "9" c
  || Ascii.eqb c "_" || Ascii.eqb c "-".

(** The tail of the match: [[class]*$]. *)
Fixpoint match_class_star_end (s : string) : bool :=
  match s with
  | EmptyString => true
  | String c rest => agentIDClass c && match_class_star_end rest
  end.

(** [agentIDPattern.MatchString]: [^], one class byte, [[class]*], [$]. *)
Definition agentIDPattern_MatchString (s : string) : bool :=
  match s with
  | EmptyString => false
  | String c rest => agentIDClass c && match_class_star_end rest
  end.

Definition validateAgentID (id : string) : option error :=
  if is_empty id then Some (Errorf "agent_id is required")
  else if (64 <? String.length id)%nat then
    Some (Errorf "agent_id must be at most 64 characters")
  else if negb (agentIDPattern_MatchString id) then
    Some (Errorf "agent_id must match pattern ^[a-zA-Z0-9_-]+$")
  else None.

(** [errs = append(errs, msg)] when [cond] holds. *)
Definition append_if (cond : bool) (msg : string) (errs : list string) : list string :=
  if cond then (errs ++ [msg])%list else errs.

(** The body of [for i, skill := range card.Skills], from index [i] on. *)
Fixpoint range_skills (i : nat) (skills : list AgentSkill) (errs : list string)
  : list string :=
  match skills with
  | [] => errs
  | skill :: rest =>
      let errs := append_if (is_empty (SkillID skill))
                    ("skill[" ++ itoa i ++ "].id is required") errs in
      let errs := append_if (is_empty (SkillName skill))
                    ("skill[" ++ itoa i ++ "].name is required") errs in
      range_skills (S i) rest errs
  end.

(** The slice [errs] when the checks of [ValidateAgentCard] are done. *)
Definition card_errs (card : AgentCard) : list string :=
  let errs := [] in
  let errs := append_if (is_empty (Name card)) "name is required" errs in
  let errs := append_if (is_empty (URL card)) "url is required" errs in
  let errs := append_if (is_empty (Version card)) "version is required" errs in
  let errs := append_if (length (Skills card) =? 0)%nat
                "at least one skill is required" errs in
  range_skills 0 (Skills card) errs.

Definition ValidateAgentCard (card : AgentCard) : option error :=
  let errs := card_errs card in
  if (0 <? length errs)%nat then
    Some (Errorf ("invalid agent card: " ++ Join errs ", "))
  else None.


(** *** The service

    [RegistryService] holds one field, the store; its methods are
    programs whose calls are the store's methods and [time.Now]. *)

Inductive Sys : Type -> Type :=
| StoreCall {X : Type} (c : store.Call X) : Sys X   (* s.store.M(ctx, ...) *)
| TimeNow : Sys Time.                               (* time.Now() *)

Module CreateInput.
Record t : Type := { ID : string; Card : AgentCard; Tags : list string }.
End CreateInput.

Module UpdateInput.
Record t : Type := { ID : string; Card : AgentCard; Tags : list string }.
End UpdateInput.

Module ListInput.
Record t : Type := {
  Offset : Z;
  Limit : Z;
  Tags : list string;
  Skills : list string;
  Query : string
}.
Definition set_Limit (v : Z) (i : t) : t :=
  {| Offset := Offset i; Limit := v; Tags := Tags i;
     Skills := Skills i; Query := Query i |}.
Definition set_Offset (v : Z) (i : t) : t :=
  {| Offset := v; Limit := Limit i; Tags := Tags i;
     Skills := Skills i; Query := Query i |}.
End ListInput.

Definition set_Card (v : AgentCard) (a : RegisteredAgent) : RegisteredAgent :=
  {| ID := ID a; Card := v; Tags := Tags a; Embedding := Embedding a;
     CreatedAt := CreatedAt a; UpdatedAt := UpdatedAt a |}.
Definition set_Tags (v : list string) (a : RegisteredAgent) : RegisteredAgent :=
  {| ID := ID a; Card := Card a; Tags := v; Embedding := Embedding a;
     CreatedAt := CreatedAt a; UpdatedAt := UpdatedAt a |}.
Definition set_Embedding (v : option (list float32)) (a : RegisteredAgent)
  : RegisteredAgent :=
  {| ID := ID a; Card := Card a; Tags := Tags a; Embedding := v;
     CreatedAt := CreatedAt a; UpdatedAt := UpdatedAt a |}.
Definition set_UpdatedAt (v : Time) (a : RegisteredAgent) : RegisteredAgent :=
  {| ID := ID a; Card := Card a; Tags := Tags a; Embedding := Embedding a;
     CreatedAt := CreatedAt a; UpdatedAt := v |}.

Local Open Scope prog_scope.

Definition Create (input : CreateInput.t) : prog Sys (result RegisteredAgent) :=
  match validateAgentID (CreateInput.ID input) with
  | Some err => Ret (Err err)
  | None =>
      match ValidateAgentCard (CreateInput.Card input) with
      | Some err => Ret (Err err)
      | None =>
          now <- call TimeNow ;;
          let agent := {| ID := CreateInput.ID input;
                          Card := CreateInput.Card input;
                          Tags := CreateInput.Tags input;
                          Embedding := None;
                          CreatedAt := now;
                          UpdatedAt := now |} in
          err <- call (StoreCall (CreateAgent agent)) ;;
          match err with
          | Some e => Ret (Err e)
          | None => Ret (Ok agent)
          end
      end
  end.

Definition Get (id : string) : prog Sys (result RegisteredAgent) :=
  call (StoreCall (GetAgent id)).

Definition List (input : ListInput.t) : prog Sys (result AgentListResult) :=
  let input := if (ListInput.Limit input <=? 0)%Z
               then ListInput.set_Limit 20 input else input in
  let input := if (100 <? ListInput.Limit input)%Z
               then ListInput.set_Limit 100 input else input in
  let input := if (ListInput.Offset input <? 0)%Z
               then ListInput.set_Offset 0 input else input in
  call (StoreCall (ListAgents {| Offset := ListInput.Offset input;
                                 Limit := ListInput.Limit input;
                                 FilterTags := ListInput.Tags input;
                                 FilterSkills := ListInput.Skills input;
                                 Query := ListInput.Query input |})).

Definition Update (input : UpdateInput.t) : prog Sys (result RegisteredAgent) :=
  match ValidateAgentCard (UpdateInput.Card input) with
  | Some err => Ret (Err err)
  | None =>
      r <- call (StoreCall (GetAgent (UpdateInput.ID input))) ;;
      match r with
      | Err err => Ret (Err err)
      | Ok existing =>
          let existing := set_Card (UpdateInput.Card input) existing in
          let existing := set_Tags (UpdateInput.Tags input) existing in
          let existing := set_Embedding None existing in
          now <- call TimeNow ;;
          let existing := set_UpdatedAt now existing in
          err <- call (StoreCall (UpdateAgent existing)) ;;
          match err with
          | Some e => Ret (Err e)
          | None => Ret (Ok existing)
          end
      end
  end.

Definition Delete (id : string) : prog Sys (option error) :=
  call (StoreCall (DeleteAgent id)).

(** *** Running the service

    A store implementation answers the calls of [store.Call] on its own
    state; the clock is the sequence of readings [time.Now] returns. *)

Definition StoreImpl (St : Type) : Type := forall X, store.Call X -> St -> X * St.

Record World (St : Type) : Type := {
  the_store : St;
  clock_reads : nat     (* how many times the clock was read *)
}.
Arguments the_store {St} w.
Arguments clock_reads {St} w.

Definition answer_sys {St} (impl : StoreImpl St) (clock : nat -> Time)
  (X : Type) (e : Sys X) (w : World St) : X * World St :=
  match e in Sys X0 return X0 * World St with
  | StoreCall c =>
      let '(x, s') := impl _ c (the_store w) in
      (x, {| the_store := s'; clock_reads := clock_reads w |})
  | TimeNow =>
      (clock (clock_reads w),
       {| the_store := the_store w; clock_reads := S (clock_reads w) |})
  end.

End registry.

(** ** Package store: the in-memory store *)

Module MemoryStore.

Import a2a store.

(** Modelled from the spec: the in-memory store ([NewMemoryStore] and its
    methods, file memory.go) is missing from the sources; only its tests
    are there.  The spec describes a mapping from id to record, with
    insertion order breaking ties of [ListAgents]: the state is the list
    of stored records, oldest insertion first, at most one per id. *)
Definition t : Type := list RegisteredAgent.

(** Modelled from the spec: [NewMemoryStore], an empty store. *)
Definition NewMemoryStore : t := [].

(** Modelled from the spec: the record stored under [id], if any. *)
Fixpoint lookup (id : string) (s : t) : option RegisteredAgent :=
  match s with
  | [] => None
  | a :: rest => if String.eqb (ID a) id then Some a else lookup id rest
  end.

(** Modelled from the spec: [CreateAgent] fails with [AlreadyExists] if
    the id is present; otherwise persists a copy of the record. *)
Definition CreateAgent (agent : RegisteredAgent) (s : t) : option error * t :=
  match lookup (ID agent) s with
  | Some _ => (Some ErrAlreadyExists, s)
  | None => (None, (s ++ [agent])%list)
  end.

(** Modelled from the spec: [GetAgent] fails with [NotFound] if absent. *)
Definition GetAgent (id : string) (s : t) : result RegisteredAgent * t :=
  match lookup id s with
  | Some a => (Ok a, s)
  | None => (Err ErrNotFound, s)
  end.

(** Modelled from the spec: replacing the stored fields of a record. *)
Fixpoint replace (agent : RegisteredAgent) (s : t) : t :=
  match s with
  | [] => []
  | a :: rest =>
      if String.eqb (ID a) (ID agent) then agent :: rest
      else a :: replace agent rest
  end.

(** Modelled from the spec: [UpdateAgent] fails with [NotFound] if absent;
    otherwise replaces the stored fields. *)
Definition UpdateAgent (agent : RegisteredAgent) (s : t) : option error * t :=
  match lookup (ID agent) s with
  | None => (Some ErrNotFound, s)
  | Some _ => (None, replace agent s)
  end.

(** Modelled from the spec: [DeleteAgent] fails with [NotFound] if absent;
    otherwise removes the record. *)
Definition DeleteAgent (id : string) (s : t) : option error * t :=
  match lookup id s with
  | None => (Some ErrNotFound, s)
  | Some _ => (None, filter (fun a => negb (String.eqb (ID a) id)) s)
  end.

(** Modelled from the spec: ASCII lower-casing and substring search, for
    the case-insensitive query. *)
Definition lower_ascii (c : ascii) : ascii :=
  if registry.in_range "A" "Z" c
  then ascii_of_nat (nat_of_ascii c + 32) else c.

Fixpoint ToLower (s : string) : string :=
  match s with
  | EmptyString => EmptyString
  | String c rest => String (lower_ascii c) (ToLower rest)
  end.

Fixpoint Contains (s substr : string) : bool :=
  String.prefix substr s
  || match s with
     | EmptyString => false
     | String _ rest => Contains rest substr
     end.

Definition mem (x : string) (l : list string) : bool :=
  existsb (String.eqb x) l.

(** Modelled from the spec: step 1 of [ListAgents], the three predicates
    (tags intersect, skill ids intersect, name or description contains
    the query case-insensitively), each one passing when its filter is
    empty, all three ANDed. *)
Definition matchesTags (filter : AgentFilter) (a : RegisteredAgent) : bool :=
  match FilterTags filter with
  | [] => true
  | wanted => existsb (fun tag => mem tag wanted) (Tags a)
  end.

Definition matchesSkills (filter : AgentFilter) (a : RegisteredAgent) : bool :=
  match FilterSkills filter with
  | [] => true
  | wanted => existsb (fun sk => mem (SkillID sk) wanted) (Skills (Card a))
  end.

Definition matchesQuery (filter : AgentFilter) (a : RegisteredAgent) : bool :=
  if is_empty (Query filter) then true
  else
    let q := ToLower (Query filter) in
    Contains (ToLower (Name (Card a))) q
    || Contains (ToLower (Description (Card a))) q.

Definition matches (filter : AgentFilter) (a : RegisteredAgent) : bool :=
  matchesTags filter a && matchesSkills filter a && matchesQuery filter a.

(** Modelled from the spec: step 2 of [ListAgents], a stable sort by
    [CreatedAt], newest first.  A record is inserted in front of the first
    one that is not newer than it, so among records of one instant the
    earlier inserted one stays first. *)
Fixpoint insertNewestFirst (a : RegisteredAgent) (l : list RegisteredAgent)
  : list RegisteredAgent :=
  match l with
  | [] => [a]
  | b :: rest =>
      if (CreatedAt b <=? CreatedAt a)%Z then a :: l
      else b :: insertNewestFirst a rest
  end.

Fixpoint sortNewestFirst (l : list RegisteredAgent) : list RegisteredAgent :=
  match l with
  | [] => []
  | a :: rest => insertNewestFirst a (sortNewestFirst rest)
  end.

(** Modelled from the spec: step 4 of [ListAgents], skip [offset] then
    take [limit]; an offset at or past the total gives an empty page.  A
    negative count skips or takes nothing. *)
Definition paginate (offset limit : Z) (l : list RegisteredAgent)
  : list RegisteredAgent :=
  if (Z.of_nat (length l) <=? offset)%Z then []
  else firstn (Z.to_nat limit) (skipn (Z.to_nat offset) l).

(** Modelled from the spec: [ListAgents], steps 1 to 4. *)
Definition ListAgents (filter : AgentFilter) (s : t)
  : result AgentListResult * t :=
  let matched := List.filter (matches filter) s in
  let sorted := sortNewestFirst matched in
  let total := Z.of_nat (length matched) in
  (Ok {| Agents := paginate (Offset filter) (Limit filter) sorted;
         Total := total |}, s).

(** Modelled from the spec: the in-memory store is always reachable and
    has nothing to release. *)
Definition Ping (s : t) : option error * t := (None, s).
Definition Close (s : t) : option error * t := (None, s).

(** The in-memory store as an implementation of the [Store] interface. *)
Definition impl : registry.StoreImpl t :=
  fun X (c : store.Call X) =>
    match c in store.Call X0 return t -> X0 * t with
    | store.Ping => Ping
    | store.Close => Close
    | store.CreateAgent agent => CreateAgent agent
    | store.GetAgent id => GetAgent id
    | store.ListAgents filter => ListAgents filter
    | store.UpdateAgent agent => UpdateAgent agent
    | store.DeleteAgent id => DeleteAgent id
    end.

End MemoryStore.

(** ** Package store: the Qdrant-backed store *)

Module qdrant.

(** The part of the Qdrant client the store uses. *)
Record Config : Type := {
  Host : string;
  Port : Z;
  APIKey : string;
  UseTLS : bool
}.

Definition Client : Type := nat.            (* a non-nil *qdrant.Client *)
Definition HealthCheckReply : Type := string.

Inductive Call : Type -> Type :=
| NewClient (cfg : Config) : Call (result Client)
| HealthCheck (receiver : option Client) : Call (result HealthCheckReply)
| ClientClose (c : Client) : Call (option error).

End qdrant.

Module QdrantStore.

Record Options : Type := {
  Host : string;
  Port : Z;
  APIKey : string;
  UseTLS : bool
}.

Definition DefaultOptions : Options :=
  {| Host := "localhost"; Port := 6334; APIKey := ""; UseTLS := false |}.

(** The functional option type [Option]: an update of the options. *)
Definition Option : Type := Options -> Options.

Definition WithHost (host : string) : Option :=
  fun o => {| Host := host; Port := Port o; APIKey := APIKey o; UseTLS := UseTLS o |}.
Definition WithPort (port : Z) : Option :=
  fun o => {| Host := Host o; Port := port; APIKey := APIKey o; UseTLS := UseTLS o |}.
Definition WithAPIKey (apiKey : string) : Option :=
  fun o => {| Host := Host o; Port := Port o; APIKey := apiKey; UseTLS := UseTLS o |}.
Definition WithTLS (useTLS : bool) : Option :=
  fun o => {| Host := Host o; Port := Port o; APIKey := APIKey o; UseTLS := useTLS |}.

Record t : Type := {
  client : option qdrant.Client      (* nil pointer = None *)
}.

Local Open Scope prog_scope.

(** [Ping] calls [HealthCheck] on the client it holds, without a nil check.
    On a nil client the call is made on the nil receiver: in Go it panics
    inside the client, which is beyond the model, where the answer is the
    world's.  [NewQdrantStore] only pings a store whose client it has just
    created. *)
Definition Ping (s : t) : prog qdrant.Call (option error) :=
  r <- call (qdrant.HealthCheck (client s)) ;;
  match r with
  | Err err => Ret (Some (Wrapf "qdrant health check failed: " err))
  | Ok _ => Ret None
  end.

Definition Close (s : t) : prog qdrant.Call (option error) :=
  match client s with
  | Some c => call (qdrant.ClientClose c)
  | None => Ret None
  end.

Definition config_of (options : Options) : qdrant.Config :=
  {| qdrant.Host := Host options; qdrant.Port := Port options;
     qdrant.APIKey := APIKey options; qdrant.UseTLS := UseTLS options |}.

Definition NewQdrantStore (opts : list Option) : prog qdrant.Call (result t) :=
  let options := fold_left (fun o (opt : Option) => opt o) opts DefaultOptions in
  r <- call (qdrant.NewClient (config_of options)) ;;
  match r with
  | Err err => Ret (Err (Wrapf "failed to create qdrant client: " err))
  | Ok c =>
      let store := {| client := Some c |} in
      perr <- Ping store ;;
      match perr with
      | Some err =>
          _ <- Close store ;;
          Ret (Err (Wrapf "failed to connect to qdrant: " err))
      | None => Ret (Ok store)
      end
  end.

(** Reading a trace of client calls. *)
Definition is_probe (en : entry qdrant.Call) : bool :=
  match en with
  | Entry e _ => match e with qdrant.HealthCheck _ => true | _ => false end
  end.

Definition is_failed_probe (en : entry qdrant.Call) : bool :=
  match en with
  | Entry e x =>
      match e in qdrant.Call X0 return X0 -> bool with
      | qdrant.HealthCheck _ => fun r => negb (is_ok r)
      | _ => fun _ => false
      end x
  end.

Definition is_close_of (c : qdrant.Client) (en : entry qdrant.Call) : bool :=
  match en with
  | Entry e _ =>
      match e with
      | qdrant.ClientClose c' => Nat.eqb c c'
      | _ => false
      end
  end.

End QdrantStore.

(** ** Package handler: the health endpoint *)

Module handler.

Record HealthChecks : Type := { VectorStorage : string }.

Record HealthResponse : Type := {
  Status : string;
  Checks : HealthChecks
}.

(** A [store.HealthChecker] behind the interface. *)
Definition HealthChecker : Type := nat.

Inductive Call : Type -> Type :=
| CheckerPing (checker : HealthChecker) : Call (option error).

Record HealthHandler : Type := {
  store : option HealthChecker     (* nil interface = None *)
}.

Definition NewHealthHandler (checker : option HealthChecker) : HealthHandler :=
  {| store := checker |}.

(** What [ServeHTTP] writes to the [http.ResponseWriter]. *)
Record Written : Type := {
  ContentType : string;
  StatusCode : Z;
  Body : HealthResponse      (* the value given to the JSON encoder *)
}.

Definition StatusOK : Z := 200.
Definition StatusServiceUnavailable : Z := 503.

Local Open Scope prog_scope.

Definition ServeHTTP (h : HealthHandler) : prog Call Written :=
  let response := {| Status := "healthy";
                     Checks := {| VectorStorage := "up" |} |} in
  let statusCode := StatusOK in
  st <- match store h with
        | Some checker =>
            err <- call (CheckerPing checker) ;;
            match err with
            | Some _ =>
                Ret ({| Status := "unhealthy";
                        Checks := {| VectorStorage := "down" |} |},
                     StatusServiceUnavailable)
            | None => Ret (response, statusCode)
            end
        | None => Ret (response, statusCode)
        end ;;
  Ret {| ContentType := "application/json";
         StatusCode := snd st;
         Body := fst st |}.

End handler.

(** ** Error chains and call translation *)

(** [errors.Unwrap] *)
Definition Unwrap (e : error) : option error :=
  match e with
  | Wrapf _ cause => Some cause
  | _ => None
  end.

(** [errors.Is(err, store.ErrNotFound)]: the sentinel is the error itself
    or lies on its chain of wrapped causes. *)
Fixpoint Is_ErrNotFound (e : error) : bool :=
  match e with
  | ErrNotFound => true
  | Wrapf _ cause => Is_ErrNotFound cause
  | _ => false
  end.

(** A program of one component seen from the component that calls it. *)
Fixpoint translate {E F : Type -> Type} {R : Type}
  (f : forall X, E X -> F X) (p : prog E R) : prog F R :=
  match p with
  | Ret r => Ret r
  | Vis e k => Vis (f _ e) (fun x => translate f (k x))
  end.

(** [fmt.Sprintf("%d", n)] for an [int]. *)
Definition fmtD (n : Z) : string := NilEmpty.string_of_int (Z.to_int n).

(** ** Package handler: the public agent endpoint *)

Module AgentsHandler.

(** What [handleGetCard] does to the outside: the calls of the registry
    service it holds, the helper [writeError] (defined in a file of the
    package that is not among the sources, so left as a call), and the
    writes to the [http.ResponseWriter]. *)
Inductive Call : Type -> Type :=
| Registry {X : Type} (c : registry.Sys X) : Call X
| writeError (status : Z) (code message : string) : Call unit
| HeaderSet (key value : string) : Call unit                (* w.Header().Set *)
| EncodeCard (card : a2a.AgentCard) : Call (option error).  (* json Encode *)

Definition StatusNotFound : Z := 404.
Definition StatusInternalServerError : Z := 500.

Local Open Scope prog_scope.

(** [agentID] is [r.PathValue("id")]. *)
Definition handleGetCard (agentID : string) : prog Call unit :=
  r <- translate (@Registry) (registry.Get agentID) ;;
  match r with
  | Err err =>
      if Is_ErrNotFound err then
        call (writeError StatusNotFound "AGENT_NOT_FOUND"
                ("agent with ID '" ++ agentID ++ "' not found"))
      else
        call (writeError StatusInternalServerError "INTERNAL_ERROR"
                "internal server error")
  | Ok agent =>
      _ <- call (HeaderSet "Content-Type" "application/json") ;;
      _ <- call (EncodeCard (store.Card agent)) ;;
      Ret tt
  end.

(** Reading a trace of the endpoint. *)
Definition is_store_write (en : entry Call) : bool :=
  match en with
  | Entry e _ =>
      match e with
      | Registry c =>
          match c with
          | registry.StoreCall sc =>
              match sc with
              | store.CreateAgent _ | store.UpdateAgent _ | store.DeleteAgent _ => true
              | _ => false
              end
          | registry.TimeNow => false
          end
      | _ => false
      end
  end.

Definition is_writer_call (en : entry Call) : bool :=
  match en with
  | Entry e _ => match e with Registry _ => false | _ => true end
  end.

End AgentsHandler.

(** ** Package server *)

Module server.

Definition Logger : Type := nat.            (* a *slog.Logger *)
Definition slog_Default : Logger := 0%nat.  (* slog.Default() *)
Definition Duration : Type := Z.            (* nanoseconds *)
Definition Second : Duration := 1000000000%Z.

Record Options : Type := {
  Port : Z;
  OptLogger : Logger;                       (* Options.Logger *)
  ReadTimeout : Duration;
  WriteTimeout : Duration;
  IdleTimeout : Duration;
  ShutdownTimeout : Duration
}.

Definition DefaultOptions : Options :=
  {| Port := 8080;
     OptLogger := slog_Default;
     ReadTimeout := (15 * Second)%Z;
     WriteTimeout := (15 * Second)%Z;
     IdleTimeout := (60 * Second)%Z;
     ShutdownTimeout := (30 * Second)%Z |}.

Definition Option : Type := Options -> Options.

Definition WithPort (port : Z) : Option :=
  fun o => {| Port := port; OptLogger := OptLogger o; ReadTimeout := ReadTimeout o;
              WriteTimeout := WriteTimeout o; IdleTimeout := IdleTimeout o;
              ShutdownTimeout := ShutdownTimeout o |}.
Definition WithLogger (logger : Logger) : Option :=
  fun o => {| Port := Port o; OptLogger := logger; ReadTimeout := ReadTimeout o;
              WriteTimeout := WriteTimeout o; IdleTimeout := IdleTimeout o;
              ShutdownTimeout := ShutdownTimeout o |}.
Definition WithReadTimeout (d : Duration) : Option :=
  fun o => {| Port := Port o; OptLogger := OptLogger o; ReadTimeout := d;
              WriteTimeout := WriteTimeout o; IdleTimeout := IdleTimeout o;
              ShutdownTimeout := ShutdownTimeout o |}.
Definition WithWriteTimeout (d : Duration) : Option :=
  fun o => {| Port := Port o; OptLogger := OptLogger o; ReadTimeout := ReadTimeout o;
              WriteTimeout := d; IdleTimeout := IdleTimeout o;
              ShutdownTimeout := ShutdownTimeout o |}.
Definition WithIdleTimeout (d : Duration) : Option :=
  fun o => {| Port := Port o; OptLogger := OptLogger o; ReadTimeout := ReadTimeout o;
              WriteTimeout := WriteTimeout o; IdleTimeout := d;
              ShutdownTimeout := ShutdownTimeout o |}.
Definition WithShutdownTimeout (d : Duration) : Option :=
  fun o => {| Port := Port o; OptLogger := OptLogger o; ReadTimeout := ReadTimeout o;
              WriteTimeout := WriteTimeout o; IdleTimeout := IdleTimeout o;
              ShutdownTimeout := d |}.

(** The fields of [*http.Request] the middleware reads. *)
Record Request : Type := {
  Method : string;
  URLPath : string;        (* r.URL.Path *)
  RemoteAddr : string
}.

(** The methods of [http.ResponseWriter]; [HeaderSet] is [Header().Set]. *)
Inductive WriterCall : Type -> Type :=
| HeaderSet (key value : string) : WriterCall unit
| Write (p : string) : WriterCall (Z * option error)
| WriteHeader (code : Z) : WriterCall unit.

(** What a handler does: calls on the writer it was given, and whatever
    else it does ([Other], the calls of the components it holds). *)
Inductive HandlerCall (Other : Type -> Type) : Type -> Type :=
| ToWriter {X : Type} (c : WriterCall X) : HandlerCall Other X
| Outside {X : Type} (o : Other X) : HandlerCall Other X.
Arguments ToWriter {Other X} c.
Arguments Outside {Other X} o.

(** A value logged under a key. *)
Inductive Attr : Type :=
| AString (s : string)
| AInt (n : Z).

(** What the wrapped handler does: the calls of the handler it wraps, the
    writer calls among them going to the writer it was given itself; the
    clock; the logger. *)
Inductive Call (Other : Type -> Type) : Type -> Type :=
| Next {X : Type} (c : HandlerCall Other X) : Call Other X
| TimeNow : Call Other Time
| LoggerInfo (logger : Logger) (msg : string) (args : list (string * Attr))
  : Call Other unit.
Arguments Next {Other X} c.
Arguments TimeNow {Other}.
Arguments LoggerInfo {Other} logger msg args.

Definition StatusOK : Z := 200%Z.

(** [type responseWriter struct]: the embedded writer is the one the
    middleware was given; [status] is the field. *)
Record responseWriter : Type := { status : Z }.

(** The status after a call on the wrapping writer: [WriteHeader] stores
    its code; the other methods are the embedded writer's own. *)
Definition status_after {Other X} (c : HandlerCall Other X) (rw : responseWriter)
  : responseWriter :=
  match c with
  | ToWriter wc =>
      match wc with
      | WriteHeader code => {| status := code |}
      | _ => rw
      end
  | Outside _ => rw
  end.

(** [next.ServeHTTP(wrapped, r)]: the handler runs against the wrapping
    writer, each of its calls going on to the embedded writer. *)
Fixpoint serveWrapped {Other} (rw : responseWriter)
  (p : prog (HandlerCall Other) unit) : prog (Call Other) responseWriter :=
  match p with
  | Ret _ => Ret rw
  | Vis e k => Vis (Next e) (fun x => serveWrapped (status_after e rw) (k x))
  end.

(** [d.Milliseconds()]: integer division, rounding toward zero. *)
Definition Milliseconds (d : Duration) : Z := Z.quot d 1000000%Z.

Local Open Scope prog_scope.

Definition loggingMiddleware {Other} (logger : Logger)
  (next : Request -> prog (HandlerCall Other) unit)
  : Request -> prog (Call Other) unit :=
  fun r =>
    start <- call TimeNow ;;
    wrapped <- serveWrapped {| status := StatusOK |} (next r) ;;
    now <- call TimeNow ;;                    (* time.Since(start) *)
    call (LoggerInfo logger "request"
            [ ("method", AString (Method r));
              ("path", AString (URLPath r));
              ("status", AInt (status wrapped));
              ("duration_ms", AInt (Milliseconds (now - start)%Z));
              ("remote_addr", AString (RemoteAddr r)) ]).

Module http.
(** The fields of [http.Server] that [New] sets. *)
Record Server (Other : Type -> Type) : Type := {
  Addr : string;
  Handler : Request -> prog (Call Other) unit;
  ReadTimeout : Duration;
  WriteTimeout : Duration;
  IdleTimeout : Duration
}.
Arguments Addr {Other} s.
Arguments Handler {Other} s.
Arguments ReadTimeout {Other} s.
Arguments WriteTimeout {Other} s.
Arguments IdleTimeout {Other} s.
End http.

Record Server (Other : Type -> Type) : Type := {
  httpServer : http.Server Other;
  logger : Logger;
  opts : Options
}.
Arguments httpServer {Other} s.
Arguments logger {Other} s.
Arguments opts {Other} s.

Definition New {Other} (handler : Request -> prog (HandlerCall Other) unit)
  (options : list Option) : Server Other :=
  let options := fold_left (fun o (opt : Option) => opt o) options DefaultOptions in
  {| httpServer :=
       {| http.Addr := ":" ++ fmtD (Port options);
          http.Handler := loggingMiddleware (OptLogger options) handler;
          http.ReadTimeout := ReadTimeout options;
          http.WriteTimeout := WriteTimeout options;
          http.IdleTimeout := IdleTimeout options |};
     logger := OptLogger options;
     opts := options |}.

(** Reading traces: the last code a handler gave to [WriteHeader], if any,
    and the calls of the handler inside the calls of the wrapped one. *)
Definition header_code {Other} (en : entry (HandlerCall Other)) : option Z :=
  match en with
  | Entry e _ =>
      match e with
      | ToWriter wc => match wc with WriteHeader code => Some code | _ => None end
      | Outside _ => None
      end
  end.

Definition last_code {Other} (tr : list (entry (HandlerCall Other))) (default : Z) : Z :=
  fold_left (fun code en => match header_code en with Some c => c | None => code end)
    tr default.

Definition passed_on {Other} (en : entry (HandlerCall Other)) : entry (Call Other) :=
  match en with
  | Entry e x => Entry (Next e) x
  end.

(** [Addr] read back: the port after the colon. *)
Definition port_of_Addr (addr : string) : option Z :=
  match addr with
  | String ":" digits => option_map Z.of_int (NilEmpty.int_of_string digits)
  | _ => None
  end.

(** A call that is not [WriteHeader]. *)
Definition no_header_code {Other} (en : entry (HandlerCall Other)) : bool :=
  match header_code en with
  | Some _ => false
  | None => true
  end.

(** The world as the handler inside the wrapping meets it. *)
Definition inner {Other : Type -> Type} {W : Type}
  (answer : forall X, Call Other X -> W -> X * W)
  : forall X, HandlerCall Other X -> W -> X * W :=
  fun X c => answer X (Next c).

(** The calls of the wrapped handler that are calls of the handler it
    wraps. *)
Definition is_next {Other} (en : entry (Call Other)) : bool :=
  match en with
  | Entry e _ => match e with Next _ => true | _ => false end
  end.

(** The key-value pairs of the line logged for a request, for stating what
    was logged. *)
Definition request_args (r : Request) (code ms : Z) : list (string * Attr) :=
  [ ("method", AString (Method r));
    ("path", AString (URLPath r));
    ("status", AInt code);
    ("duration_ms", AInt ms);
    ("remote_addr", AString (RemoteAddr r)) ].

End server.

(** ** What the specification says, in its own words

    The definitions of this module follow the wording of the specification,
    not the code; the theorems below compare the two. *)

Module Spec.

Import a2a.

(** A card is complete when name, url and version are non-empty, there is
    a skill, and every skill has a non-empty id and name. *)
Definition card_complete (card : AgentCard) : Prop :=
  Name card <> "" /\ URL card <> "" /\ Version card <> ""
  /\ Skills card <> []
  /\ Forall (fun sk => SkillID sk <> "" /\ SkillName sk <> "") (Skills card).

Definition violation_if (cond : bool) (msg : string) : list string :=
  if cond then [msg] else [].

(** The violations of the skill at position [i], id before name. *)
Definition skill_violations (i : nat) (sk : AgentSkill) : list string :=
  (violation_if (is_empty (SkillID sk)) ("skill[" ++ itoa i ++ "].id is required")
   ++ violation_if (is_empty (SkillName sk)) ("skill[" ++ itoa i ++ "].name is required"))%list.

(** The skills paired with their positions in the input sequence. *)
Definition indexed {A} (l : list A) : list (nat * A) :=
  combine (seq 0 (length l)) l.

(** All violations, in the order name, url, version, skills-empty, then
    the skills in index order. *)
Definition violations (card : AgentCard) : list string :=
  (violation_if (is_empty (Name card)) "name is required"
   ++ violation_if (is_empty (URL card)) "url is required"
   ++ violation_if (is_empty (Version card)) "version is required"
   ++ violation_if (match Skills card with [] => true | _ => false end)
        "at least one skill is required"
   ++ flat_map (fun p => skill_violations (fst p) (snd p)) (indexed (Skills card)))%list.

(** The characters of the class [A-Za-z0-9_-], by code point. *)
Definition id_char (c : ascii) : Prop :=
  let n := nat_of_ascii c in
  (65 <= n <= 90 \/ 97 <= n <= 122 \/ 48 <= n <= 57 \/ n = 95 \/ n = 45)%nat.

Definition id_well_formed (id : string) : Prop :=
  id <> "" /\ (String.length id <= 64)%nat
  /\ Forall id_char (list_ascii_of_string id).

(** The record [Create] builds at the clock reading [now]. *)
Definition created (input : registry.CreateInput.t) (now : Time) : store.RegisteredAgent :=
  {| store.ID := registry.CreateInput.ID input;
     store.Card := registry.CreateInput.Card input;
     store.Tags := registry.CreateInput.Tags input;
     store.Embedding := None;
     store.CreatedAt := now;
     store.UpdatedAt := now |}.

(** The record [Update] builds from the stored one at the reading [now]. *)
Definition updated (input : registry.UpdateInput.t) (existing : store.RegisteredAgent)
  (now : Time) : store.RegisteredAgent :=
  {| store.ID := store.ID existing;
     store.Card := registry.UpdateInput.Card input;
     store.Tags := registry.UpdateInput.Tags input;
     store.Embedding := None;
     store.CreatedAt := store.CreatedAt existing;
     store.UpdatedAt := now |}.

(** The part of the [Store] contract the registry relies on: a record can
    be created under an absent id; a record created or updated is the one
    a later [GetAgent] of its id returns; [GetAgent] returns a record of the
    id it was asked for. *)
Record StoreContract {St : Type} (impl : registry.StoreImpl St) : Prop := {
  create_absent : forall agent s,
    fst (impl _ (store.GetAgent (store.ID agent)) s) = Err ErrNotFound ->
    fst (impl _ (store.CreateAgent agent) s) = None;
  get_after_create : forall agent s,
    fst (impl _ (store.CreateAgent agent) s) = None ->
    fst (impl _ (store.GetAgent (store.ID agent))
           (snd (impl _ (store.CreateAgent agent) s))) = Ok agent;
  get_after_update : forall agent s,
    fst (impl _ (store.UpdateAgent agent) s) = None ->
    fst (impl _ (store.GetAgent (store.ID agent))
           (snd (impl _ (store.UpdateAgent agent) s))) = Ok agent;
  get_same_id : forall id s agent,
    fst (impl _ (store.GetAgent id) s) = Ok agent -> store.ID agent = id
}.

(** Newest first: the record in front was not created before the one
    behind it. *)
Definition newestFirst (a b : store.RegisteredAgent) : Prop :=
  (store.CreatedAt b <= store.CreatedAt a)%Z.

(** The records created at the instant [t]. *)
Definition createdAtInstant (t : Time) (a : store.RegisteredAgent) : bool :=
  (store.CreatedAt a =? t)%Z.

(** What the health endpoint writes when healthy and when unhealthy. *)
Definition healthyWritten : handler.Written :=
  {| handler.ContentType := "application/json";
     handler.StatusCode := 200;
     handler.Body := {| handler.Status := "healthy";
                        handler.Checks := {| handler.VectorStorage := "up" |} |} |}.

Definition unhealthyWritten : handler.Written :=
  {| handler.ContentType := "application/json";
     handler.StatusCode := 503;
     handler.Body := {| handler.Status := "unhealthy";
                        handler.Checks := {| handler.VectorStorage := "down" |} |} |}.

End Spec.

(** ** Inputs used by the tests of the repository and by the examples *)

Module Fixtures.

Import a2a.

(** [a2a.AgentCard{}] *)
Definition emptyCard : AgentCard :=
  {| Name := ""; Description := ""; URL := ""; Version := ""; Skills := [] |}.

(** [validAgentCard()] of the test files. *)
Definition validAgentCard : AgentCard :=
  {| Name := "Test Agent";
     Description := "A test agent";
     URL := "http://localhost:9000";
     Version := "1.0.0";
     Skills := [ {| SkillID := "skill-1"; SkillName := "Skill One" |} ] |}.

(** A card whose skills miss fields at several positions. *)
Definition sloppyCard : AgentCard :=
  {| Name := "Test Agent";
     Description := "";
     URL := "";
     Version := "1.0.0";
     Skills := [ {| SkillID := ""; SkillName := "" |};
                 {| SkillID := "ok"; SkillName := "Fine" |};
                 {| SkillID := "x"; SkillName := "" |} ] |}.

(** [validCreateInput()] of the registry tests. *)
Definition validCreateInput : registry.CreateInput.t :=
  {| registry.CreateInput.ID := "test-agent";
     registry.CreateInput.Card := validAgentCard;
     registry.CreateInput.Tags := ["test"] |}.

(** The update of [TestRegistryService_Update]. *)
Definition updateInput : registry.UpdateInput.t :=
  {| registry.UpdateInput.ID := "test-agent";
     registry.UpdateInput.Card :=
       {| Name := "Updated Name";
          Description := "A test agent";
          URL := "http://localhost:9000";
          Version := "1.0.0";
          Skills := [ {| SkillID := "skill-1"; SkillName := "Skill One" |} ] |};
     registry.UpdateInput.Tags := ["updated"] |}.

(** An input whose id and card are both invalid. *)
Definition invalidCreateInput : registry.CreateInput.t :=
  {| registry.CreateInput.ID := "agent@invalid";
     registry.CreateInput.Card := emptyCard;
     registry.CreateInput.Tags := [] |}.

Definition invalidUpdateInput : registry.UpdateInput.t :=
  {| registry.UpdateInput.ID := "test-agent";
     registry.UpdateInput.Card := emptyCard;
     registry.UpdateInput.Tags := [] |}.

(** A clock that advances by one second at every reading, and a clock
    whose readings do not advance. *)
Definition tickingClock : nat -> Time :=
  fun n => (1700000000 + Z.of_nat n)%Z.

Definition stalledClock : nat -> Time :=
  fun _ => 1700000000%Z.

(** A fresh in-memory store, before the clock was read. *)
Definition freshWorld : registry.World MemoryStore.t :=
  {| registry.the_store := MemoryStore.NewMemoryStore;
     registry.clock_reads := 0 |}.

(** A record stored with an embedding. *)
Definition embeddedAgent : store.RegisteredAgent :=
  {| store.ID := "test-agent";
     store.Card := validAgentCard;
     store.Tags := ["test"];
     store.Embedding := Some [1065353216; 0]%Z;
     store.CreatedAt := 1600000000%Z;
     store.UpdatedAt := 1600000500%Z |}.

Definition embeddedWorld : registry.World MemoryStore.t :=
  {| registry.the_store := [embeddedAgent];
     registry.clock_reads := 0 |}.

(** The world after [validCreateInput] was created at [stalledClock]. *)
Definition createdWorld : registry.World MemoryStore.t :=
  snd (fst (run (registry.answer_sys MemoryStore.impl stalledClock)
              (registry.Create validCreateInput) freshWorld)).

(** [validAgent(id)] of the store tests, created at the instant [t]. *)
Definition validAgent (id : string) (t : Time) : store.RegisteredAgent :=
  {| store.ID := id;
     store.Card := validAgentCard;
     store.Tags := ["test"];
     store.Embedding := None;
     store.CreatedAt := t;
     store.UpdatedAt := 1700000000%Z |}.

Definition storeOf (agents : list store.RegisteredAgent) : MemoryStore.t :=
  fold_left (fun s a => snd (MemoryStore.CreateAgent a s)) agents
    MemoryStore.NewMemoryStore.

(** The five agents of the pagination test, one second apart. *)
Definition fiveAgents : MemoryStore.t :=
  storeOf [ validAgent "agent-a" 1700000000; validAgent "agent-b" 1700000001;
            validAgent "agent-c" 1700000002; validAgent "agent-d" 1700000003;
            validAgent "agent-e" 1700000004 ]%Z.

(** Two agents of one instant between an older and a newer one. *)
Definition tiedAgents : MemoryStore.t :=
  storeOf [ validAgent "agent-old" 1699996400; validAgent "tie-1" 1700000000;
            validAgent "agent-new" 1700000009; validAgent "tie-2" 1700000000 ]%Z.

Definition pageFilter (offset limit : Z) : store.AgentFilter :=
  {| store.Offset := offset; store.Limit := limit; store.FilterTags := [];
     store.FilterSkills := []; store.Query := "" |}.

(** A Qdrant server that accepts the connection and whose health check
    fails, and one that is healthy; the world counts the calls. *)
Definition downQdrant (X : Type) (e : qdrant.Call X) (w : nat) : X * nat :=
  match e in qdrant.Call X0 return X0 * nat with
  | qdrant.NewClient _ => (Ok 7%nat, S w)
  | qdrant.HealthCheck _ => (Err (ErrExternal "connection refused"), S w)
  | qdrant.ClientClose _ => (None, S w)
  end.

Definition upQdrant (X : Type) (e : qdrant.Call X) (w : nat) : X * nat :=
  match e in qdrant.Call X0 return X0 * nat with
  | qdrant.NewClient _ => (Ok 7%nat, S w)
  | qdrant.HealthCheck _ => (Ok "qdrant 1.x", S w)
  | qdrant.ClientClose _ => (None, S w)
  end.

(** A health checker that is down, and one that is up. *)
Definition downChecker (X : Type) (e : handler.Call X) (w : nat) : X * nat :=
  match e in handler.Call X0 return X0 * nat with
  | handler.CheckerPing _ => (Some (ErrExternal "unreachable"), S w)
  end.

Definition upChecker (X : Type) (e : handler.Call X) (w : nat) : X * nat :=
  match e in handler.Call X0 return X0 * nat with
  | handler.CheckerPing _ => (None, S w)
  end.

End Fixtures.

(** ** Stand-ins for the outside world, used by the examples *)

Module Stubs.

(** A store that answers [GetAgent] by [get] and every write by [write];
    its state counts the calls it received. *)
Definition stubStore (get : string -> result store.RegisteredAgent)
  (write : option error) : registry.StoreImpl nat :=
  fun X (c : store.Call X) (n : nat) =>
    match c in store.Call X0 return X0 * nat with
    | store.Ping => (None, S n)
    | store.Close => (None, S n)
    | store.CreateAgent _ => (write, S n)
    | store.GetAgent id => (get id, S n)
    | store.ListAgents _ =>
        (Ok {| store.Agents := []; store.Total := 0 |}, S n)
    | store.UpdateAgent _ => (write, S n)
    | store.DeleteAgent _ => (write, S n)
    end.

(** A store that holds nothing, one that has lost its connection, and one
    that holds every agent but refuses to write. *)
Definition emptyStore : registry.StoreImpl nat :=
  stubStore (fun _ => Err ErrNotFound) None.

Definition brokenStore : registry.StoreImpl nat :=
  stubStore (fun _ => Err (ErrExternal "connection lost"))
    (Some (ErrExternal "connection lost")).

(** A store that holds nothing and refuses every write. *)
Definition fullStore : registry.StoreImpl nat :=
  stubStore (fun _ => Err ErrNotFound) (Some (ErrExternal "disk full")).

Definition readOnlyStore : registry.StoreImpl nat :=
  stubStore (fun id => Ok (Fixtures.validAgent id 1600000000%Z))
    (Some (ErrExternal "read-only")).

Definition stubWorld : registry.World nat :=
  {| registry.the_store := 0%nat; registry.clock_reads := 0%nat |}.

(** The outside of the agents endpoint: a registry over [impl], and a
    response writer that accepts everything. *)
Definition endpoint (impl : registry.StoreImpl nat) (X : Type)
  (e : AgentsHandler.Call X) (w : registry.World nat) : X * registry.World nat :=
  match e in AgentsHandler.Call X0 return X0 * registry.World nat with
  | AgentsHandler.Registry c => registry.answer_sys impl Fixtures.tickingClock _ c w
  | AgentsHandler.writeError _ _ _ => (tt, w)
  | AgentsHandler.HeaderSet _ _ => (tt, w)
  | AgentsHandler.EncodeCard _ => (None, w)
  end.

(** A Qdrant server that cannot be reached at all. *)
Definition unreachableQdrant (X : Type) (e : qdrant.Call X) (w : nat) : X * nat :=
  match e in qdrant.Call X0 return X0 * nat with
  | qdrant.NewClient _ => (Err (ErrExternal "no such host"), S w)
  | qdrant.HealthCheck _ => (Err (ErrExternal "no such host"), S w)
  | qdrant.ClientClose _ => (None, S w)
  end.

(** A handler with nothing behind it but its writer. *)
Definition NoOther : Type -> Type := fun _ => Empty_set.

(** A handler that answers 404 with a body, and one that only writes a
    body. *)
Definition notFoundHandler (r : server.Request)
  : prog (server.HandlerCall NoOther) unit :=
  Vis (server.ToWriter (server.HeaderSet "Content-Type" "text/plain")) (fun _ =>
  Vis (server.ToWriter (server.WriteHeader 404)) (fun _ =>
  Vis (server.ToWriter (server.Write "not found")) (fun _ => Ret tt))).

Definition plainHandler (r : server.Request)
  : prog (server.HandlerCall NoOther) unit :=
  Vis (server.ToWriter (server.Write "hello")) (fun _ => Ret tt).

(** The outside of the server: a writer that accepts everything, a clock
    that advances by 2.5 ms at every reading, a logger; the world counts
    the readings of the clock. *)
Definition serverWorld (X : Type) (e : server.Call NoOther X) (n : nat) : X * nat :=
  match e in server.Call _ X0 return X0 * nat with
  | server.Next c =>
      match c in server.HandlerCall _ X1 return X1 * nat with
      | server.ToWriter wc =>
          match wc in server.WriterCall X2 return X2 * nat with
          | server.HeaderSet _ _ => (tt, n)
          | server.Write p => ((Z.of_nat (String.length p), None), n)
          | server.WriteHeader _ => (tt, n)
          end
      | server.Outside o => match o with end
      end
  | server.TimeNow => ((1700000000000000000 + 2500000 * Z.of_nat n)%Z, S n)
  | server.LoggerInfo _ _ _ => (tt, n)
  end.

Definition getRequest : server.Request :=
  {| server.Method := "GET"; server.URLPath := "/health";
     server.RemoteAddr := "127.0.0.1:50000" |}.

End Stubs.

(** * Properties *)

(** ** Validation *)

Section Validation.

Import a2a registry.

Lemma is_empty_true (s : string) : is_empty s = true <-> s = "".
Proof. destruct s; simpl; split; congruence. Qed.

Lemma is_empty_false (s : string) : is_empty s = false <-> s <> "".
Proof. destruct s; simpl; split; congruence. Qed.

Lemma append_if_spec (cond : bool) (msg : string) (errs : list string) :
  append_if cond msg errs = (errs ++ Spec.violation_if cond msg)%list.
Proof. destruct cond; simpl; [reflexivity | now rewrite app_nil_r]. Qed.

(** The loop over the skills appends, to what was collected before it,
    the violations of each skill under its own index. *)
Lemma range_skills_spec (skills : list AgentSkill) :
  forall (i : nat) (errs : list string),
    range_skills i skills errs =
    (errs ++ flat_map (fun p => Spec.skill_violations (fst p) (snd p))
               (combine (seq i (length skills)) skills))%list.
Proof.
  induction skills as [| sk rest IH]; intros i errs; simpl.
  - now rewrite app_nil_r.
  - rewrite IH, !append_if_spec.
    unfold Spec.skill_violations.
    now rewrite <- !app_assoc.
Qed.

Lemma card_errs_violations (card : AgentCard) :
  card_errs card = Spec.violations card.
Proof.
  unfold card_errs, Spec.violations, Spec.indexed.
  rewrite range_skills_spec, !append_if_spec; simpl.
  rewrite <- !app_assoc.
  now destruct (Skills card).
Qed.

Lemma violation_if_nil (cond : bool) (msg : string) :
  Spec.violation_if cond msg = [] <-> cond = false.
Proof. destruct cond; simpl; split; congruence. Qed.

Lemma skills_no_violation (skills : list AgentSkill) (i : nat) :
  flat_map (fun p => Spec.skill_violations (fst p) (snd p))
    (combine (seq i (length skills)) skills) = []
  <-> Forall (fun sk => SkillID sk <> "" /\ SkillName sk <> "") skills.
Proof.
  revert i; induction skills as [| sk rest IH]; intros i; simpl.
  - split; auto.
  - unfold Spec.skill_violations at 1; simpl.
    split.
    + intros H.
      apply app_eq_nil in H as [H Hrest].
      apply app_eq_nil in H as [Hid Hname].
      apply violation_if_nil, is_empty_false in Hid.
      apply violation_if_nil, is_empty_false in Hname.
      constructor; [tauto | now apply (IH (S i))].
    + intros H; inversion H as [| ? ? [Hid Hname] Hrest]; subst.
      apply is_empty_false in Hid, Hname.
      rewrite Hid, Hname; simpl.
      now apply IH.
Qed.

Lemma violations_nil (card : AgentCard) :
  Spec.violations card = [] <-> Spec.card_complete card.
Proof.
  unfold Spec.violations, Spec.card_complete, Spec.indexed.
  rewrite <- (skills_no_violation (Skills card) 0).
  split.
  - intros H.
    apply app_eq_nil in H as [Hn H].
    apply app_eq_nil in H as [Hu H].
    apply app_eq_nil in H as [Hv H].
    apply app_eq_nil in H as [Hs H].
    apply violation_if_nil, is_empty_false in Hn, Hu, Hv.
    apply violation_if_nil in Hs.
    repeat split; auto.
    destruct (Skills card); congruence.
  - intros (Hn & Hu & Hv & Hs & H).
    apply is_empty_false in Hn, Hu, Hv.
    rewrite Hn, Hu, Hv, H; simpl.
    destruct (Skills card); [congruence | reflexivity].
Qed.

Lemma ValidateAgentCard_violations (card : AgentCard) :
  ValidateAgentCard card =
  match Spec.violations card with
  | [] => None
  | vs => Some (Errorf ("invalid agent card: " ++ Join vs ", "))
  end.
Proof.
  unfold ValidateAgentCard.
  rewrite card_errs_violations.
  now destruct (Spec.violations card).
Qed.

Lemma agentIDClass_spec (c : ascii) :
  agentIDClass c = true <-> Spec.id_char c.
Proof.
  unfold agentIDClass, in_range, Spec.id_char.
  rewrite !orb_true_iff, !andb_true_iff, !Nat.leb_le, !Ascii.eqb_eq.
  change (nat_of_ascii "a") with 97%nat.
  change (nat_of_ascii "z") with 122%nat.
  change (nat_of_ascii "A") with 65%nat.
  change (nat_of_ascii "Z") with 90%nat.
  change (nat_of_ascii "0") with 48%nat.
  change (nat_of_ascii "9") with 57%nat.
  assert (Hu : c = "_"%char <-> nat_of_ascii c = 95%nat).
  { split; intros H; [now subst |].
    rewrite <- (ascii_nat_embedding c), H; reflexivity. }
  assert (Hd : c = "-"%char <-> nat_of_ascii c = 45%nat).
  { split; intros H; [now subst |].
    rewrite <- (ascii_nat_embedding c), H; reflexivity. }
  rewrite Hu, Hd; tauto.
Qed.

Lemma match_class_star_end_spec (s : string) :
  match_class_star_end s = true <-> Forall Spec.id_char (list_ascii_of_string s).
Proof.
  induction s as [| c rest IH]; simpl.
  - split; auto.
  - rewrite andb_true_iff, IH, agentIDClass_spec.
    split; [intros [? ?]; now constructor | intros H; now inversion H].
Qed.

Lemma MatchString_spec (s : string) :
  agentIDPattern_MatchString s = true
  <-> s <> "" /\ Forall Spec.id_char (list_ascii_of_string s).
Proof.
  destruct s as [| c rest].
  - simpl; split; [discriminate | intros [H _]; congruence].
  - change (agentIDPattern_MatchString (String c rest))
      with (match_class_star_end (String c rest)).
    rewrite match_class_star_end_spec.
    split; [intros H; split; [discriminate | exact H] | tauto].
Qed.

Lemma validateAgentID_None (id : string) :
  validateAgentID id = None <-> Spec.id_well_formed id.
Proof.
  unfold validateAgentID, Spec.id_well_formed.
  destruct (is_empty id) eqn:He.
  - apply is_empty_true in He; split; [discriminate | tauto].
  - apply is_empty_false in He.
    destruct (64 <? String.length id)%nat eqn:Hl.
    + apply Nat.ltb_lt in Hl; split; [discriminate | lia].
    + apply Nat.ltb_ge in Hl.
      destruct (agentIDPattern_MatchString id) eqn:Hm; simpl.
      * apply MatchString_spec in Hm; tauto.
      * split; [discriminate |].
        intros (_ & _ & H).
        assert (Hm' : agentIDPattern_MatchString id = true)
          by (apply MatchString_spec; tauto).
        congruence.
Qed.

End Validation.

(** C5.  [ValidateAgentCard] returns nil exactly when the card is complete
    (name, url and version non-empty, at least one skill, every skill with a
    non-empty id and name).  Otherwise it returns one error, whose message
    joins all violations, and not only the first: the slice the code
    collects is the list of violations in the order name, url, version,
    skills-empty, then for each skill in index order [skill[i].id] before
    [skill[i].name], with [i] the position of the skill. *)
Theorem ValidateAgentCard_collects_all_violations (card : a2a.AgentCard) :
  (registry.ValidateAgentCard card = None <-> Spec.card_complete card)
  /\ registry.card_errs card = Spec.violations card
  /\ registry.ValidateAgentCard card =
     match Spec.violations card with
     | [] => None
     | vs => Some (Errorf ("invalid agent card: " ++ Join vs ", "))
     end.
Proof.
  split; [| split].
  - rewrite ValidateAgentCard_violations, <- violations_nil.
    destruct (Spec.violations card); split; congruence.
  - apply card_errs_violations.
  - apply ValidateAgentCard_violations.
Qed.

(** Several violations at once, skills included. *)
Example ValidateAgentCard_sloppy_card :
  registry.ValidateAgentCard Fixtures.sloppyCard =
  Some (Errorf "invalid agent card: url is required, skill[0].id is required, skill[0].name is required, skill[2].name is required").
Proof. reflexivity. Qed.

Example ValidateAgentCard_valid_card :
  registry.ValidateAgentCard Fixtures.validAgentCard = None.
Proof. reflexivity. Qed.

(** C4, as amended.  On the completely empty card [ValidateAgentCard]
    returns an error whose message is the four violations joined by a comma
    and a space, after the prefix [invalid agent card: ]. *)
Theorem ValidateAgentCard_empty_card :
  exists e,
    registry.ValidateAgentCard Fixtures.emptyCard = Some e
    /\ error_message e =
       "invalid agent card: name is required, url is required, version is required, at least one skill is required".
Proof. eexists; split; reflexivity. Qed.

(** C4, as stated, fails: the message of the error is not the bare list of
    violations. *)
Lemma ValidateAgentCard_empty_card_not_bare_list :
  ~ (exists e,
       registry.ValidateAgentCard Fixtures.emptyCard = Some e
       /\ error_message e =
          "name is required, url is required, version is required, at least one skill is required").
Proof.
  intros (e & He & Hm).
  vm_compute in He.
  injection He as <-.
  discriminate Hm.
Qed.

(** C6, as amended.  [validateAgentID] succeeds exactly when the id is
    non-empty, at most 64 bytes long and made of characters of
    [A-Za-z0-9_-].  The empty id fails with [agent_id is required]; an id
    longer than 64 fails with [agent_id must be at most 64 characters]; a
    non-empty id of at most 64 bytes with a character outside the class
    fails with [agent_id must match pattern ^[a-zA-Z0-9_-]+$], which is how
    the code spells the pattern.  [agent@invalid] and every id of length 65
    are rejected, [valid-ID_123] is accepted. *)
Theorem validateAgentID_decides_well_formed :
  (forall id, registry.validateAgentID id = None <-> Spec.id_well_formed id)
  /\ registry.validateAgentID "" = Some (Errorf "agent_id is required")
  /\ (forall id, (64 < String.length id)%nat ->
       registry.validateAgentID id =
       Some (Errorf "agent_id must be at most 64 characters"))
  /\ (forall id, id <> "" -> (String.length id <= 64)%nat ->
       ~ Forall Spec.id_char (list_ascii_of_string id) ->
       registry.validateAgentID id =
       Some (Errorf "agent_id must match pattern ^[a-zA-Z0-9_-]+$"))
  /\ registry.validateAgentID "agent@invalid" =
     Some (Errorf "agent_id must match pattern ^[a-zA-Z0-9_-]+$")
  /\ (forall id, String.length id = 65%nat -> registry.validateAgentID id <> None)
  /\ registry.validateAgentID "valid-ID_123" = None.
Proof.
  split; [exact validateAgentID_None |].
  split; [reflexivity |].
  split; [| split; [| split; [reflexivity | split; [| reflexivity]]]].
  - intros id Hlen.
    unfold registry.validateAgentID.
    destruct id as [| c rest]; [simpl in Hlen; lia |].
    apply Nat.ltb_lt in Hlen.
    now rewrite Hlen.
  - intros id Hne Hlen Hbad.
    unfold registry.validateAgentID.
    apply is_empty_false in Hne; rewrite Hne.
    apply Nat.ltb_ge in Hlen; rewrite Hlen.
    destruct (registry.agentIDPattern_MatchString id) eqn:Hm; [| reflexivity].
    apply MatchString_spec in Hm; tauto.
  - intros id Hlen Hnone.
    apply validateAgentID_None in Hnone as (_ & Hle & _); lia.
Qed.

(** C6, as stated, fails: the message for a character outside the class
    spells the pattern [^[a-zA-Z0-9_-]+$], not [^[A-Za-z0-9_-]+$]. *)
Lemma validateAgentID_pattern_message_differs :
  ~ (exists e,
       registry.validateAgentID "agent@invalid" = Some e
       /\ error_message e = "agent_id must match pattern ^[A-Za-z0-9_-]+$").
Proof.
  intros (e & He & Hm).
  vm_compute in He.
  injection He as <-.
  discriminate Hm.
Qed.

(** ** The registry service *)

Section Registry.

Import store registry.

Context {St : Type} (impl : StoreImpl St) (clock : nat -> Time).

Lemma run_Create_valid (input : CreateInput.t) (w : World St) :
  validateAgentID (CreateInput.ID input) = None ->
  ValidateAgentCard (CreateInput.Card input) = None ->
  let now := clock (clock_reads w) in
  let agent := Spec.created input now in
  let err := fst (impl _ (CreateAgent agent) (the_store w)) in
  let s' := snd (impl _ (CreateAgent agent) (the_store w)) in
  run (answer_sys impl clock) (Create input) w =
  (match err with Some e => Err e | None => Ok agent end,
   {| the_store := s'; clock_reads := S (clock_reads w) |},
   [Entry TimeNow now; Entry (StoreCall (CreateAgent agent)) err]).
Proof.
  intros Hid Hcard; unfold Create, Spec.created.
  rewrite Hid, Hcard; simpl.
  destruct (impl _ _ (the_store w)) as [[e |] s']; reflexivity.
Qed.

Lemma run_Get (id : string) (w : World St) :
  run (answer_sys impl clock) (Get id) w =
  (fst (impl _ (GetAgent id) (the_store w)),
   {| the_store := snd (impl _ (GetAgent id) (the_store w));
      clock_reads := clock_reads w |},
   [Entry (StoreCall (GetAgent id)) (fst (impl _ (GetAgent id) (the_store w)))]).
Proof.
  unfold Get; simpl.
  destruct (impl _ _ (the_store w)) as [r s']; reflexivity.
Qed.

Lemma run_Update_valid (input : UpdateInput.t) (w : World St)
  (existing : RegisteredAgent) (s1 : St) :
  ValidateAgentCard (UpdateInput.Card input) = None ->
  impl _ (GetAgent (UpdateInput.ID input)) (the_store w) = (Ok existing, s1) ->
  let now := clock (clock_reads w) in
  let agent := Spec.updated input existing now in
  let err := fst (impl _ (UpdateAgent agent) s1) in
  let s2 := snd (impl _ (UpdateAgent agent) s1) in
  run (answer_sys impl clock) (Update input) w =
  (match err with Some e => Err e | None => Ok agent end,
   {| the_store := s2; clock_reads := S (clock_reads w) |},
   [Entry (StoreCall (GetAgent (UpdateInput.ID input))) (Ok existing);
    Entry TimeNow now;
    Entry (StoreCall (UpdateAgent agent)) err]).
Proof.
  intros Hcard Hget; unfold Update, Spec.updated.
  rewrite Hcard; simpl.
  rewrite Hget; simpl.
  destruct (impl _ _ s1) as [[e |] s2]; reflexivity.
Qed.

End Registry.

(** ** The in-memory store keeps the contract *)

Section MemoryStoreContract.

Import store MemoryStore.

Lemma lookup_same_id (id : string) (s : MemoryStore.t) (a : RegisteredAgent) :
  lookup id s = Some a -> ID a = id.
Proof.
  induction s as [| b rest IH]; simpl; [discriminate |].
  destruct (String.eqb (ID b) id) eqn:E.
  - intros [= <-]; now apply String.eqb_eq.
  - exact IH.
Qed.

Lemma lookup_app_absent (id : string) (s : MemoryStore.t) (a : RegisteredAgent) :
  lookup id s = None ->
  lookup id (s ++ [a])%list = if String.eqb (ID a) id then Some a else None.
Proof.
  induction s as [| b rest IH]; simpl; [reflexivity |].
  destruct (String.eqb (ID b) id); [discriminate | exact IH].
Qed.

Lemma lookup_replace (a : RegisteredAgent) (s : MemoryStore.t) :
  lookup (ID a) s <> None -> lookup (ID a) (replace a s) = Some a.
Proof.
  induction s as [| b rest IH]; simpl; [congruence |].
  destruct (String.eqb (ID b) (ID a)) eqn:E; simpl.
  - now rewrite String.eqb_refl.
  - rewrite E; exact IH.
Qed.

Lemma MemoryStore_contract : Spec.StoreContract MemoryStore.impl.
Proof.
  constructor; simpl.
  - intros agent s; unfold GetAgent, CreateAgent.
    destruct (lookup (ID agent) s); [discriminate | reflexivity].
  - intros agent s; unfold GetAgent, CreateAgent.
    destruct (lookup (ID agent) s) eqn:E; [discriminate |]; simpl.
    rewrite (lookup_app_absent _ _ _ E), String.eqb_refl; reflexivity.
  - intros agent s; unfold GetAgent, UpdateAgent.
    destruct (lookup (ID agent) s) eqn:E; [| discriminate]; simpl.
    rewrite lookup_replace by congruence; reflexivity.
  - intros id s agent; unfold GetAgent.
    destruct (lookup id s) eqn:E; simpl; [| discriminate].
    intros [= <-]; eapply lookup_same_id; eauto.
Qed.

End MemoryStoreContract.

(** ** Claims about the registry service *)

(** C1, as amended.  For every input with a valid id and a valid card, on
    a store that keeps the contract of [Store] (a record is created when
    its id is absent, and a record created is the one a later [GetAgent] of
    its id returns) and does not hold the id yet, [Create] succeeds, and
    the record it returns, which a subsequent [Get] returns too, has the
    id, card and tags of the input, no embedding, and [CreatedAt] equal to
    [UpdatedAt]. *)
Theorem Create_then_Get {St : Type} (impl : registry.StoreImpl St)
  (clock : nat -> Time) (w : registry.World St) (input : registry.CreateInput.t) :
  Spec.StoreContract impl ->
  registry.validateAgentID (registry.CreateInput.ID input) = None ->
  registry.ValidateAgentCard (registry.CreateInput.Card input) = None ->
  fst (impl _ (store.GetAgent (registry.CreateInput.ID input)) (registry.the_store w))
    = Err ErrNotFound ->
  exists agent w1 tr,
    run (registry.answer_sys impl clock) (registry.Create input) w = (Ok agent, w1, tr)
    /\ fst (fst (run (registry.answer_sys impl clock)
                   (registry.Get (registry.CreateInput.ID input)) w1)) = Ok agent
    /\ store.ID agent = registry.CreateInput.ID input
    /\ store.Card agent = registry.CreateInput.Card input
    /\ store.Tags agent = registry.CreateInput.Tags input
    /\ store.Embedding agent = None
    /\ store.CreatedAt agent = store.UpdatedAt agent.
Proof.
  intros HC Hid Hcard Habsent.
  pose (agent := Spec.created input (clock (registry.clock_reads w))).
  assert (Hcreate : fst (impl _ (store.CreateAgent agent) (registry.the_store w)) = None)
    by (apply (Spec.create_absent impl HC); exact Habsent).
  exists agent; eexists; eexists.
  split.
  - rewrite (run_Create_valid impl clock input w Hid Hcard); fold agent.
    rewrite Hcreate; reflexivity.
  - split; [| repeat split].
    rewrite run_Get; simpl.
    exact (Spec.get_after_create impl HC agent (registry.the_store w) Hcreate).
Qed.

Lemma Create_then_Get_witness :
  exists agent w1 tr,
    run (registry.answer_sys MemoryStore.impl Fixtures.tickingClock)
      (registry.Create Fixtures.validCreateInput) Fixtures.freshWorld = (Ok agent, w1, tr)
    /\ fst (fst (run (registry.answer_sys MemoryStore.impl Fixtures.tickingClock)
                   (registry.Get "test-agent") w1)) = Ok agent
    /\ store.ID agent = "test-agent"
    /\ store.Card agent = Fixtures.validAgentCard
    /\ store.Tags agent = ["test"]
    /\ store.Embedding agent = None
    /\ store.CreatedAt agent = store.UpdatedAt agent.
Proof.
  apply (Create_then_Get MemoryStore.impl Fixtures.tickingClock
           Fixtures.freshWorld Fixtures.validCreateInput).
  - exact MemoryStore_contract.
  - reflexivity.
  - reflexivity.
  - reflexivity.
Defined.

(** C1, as stated, fails in two ways.  A valid input whose id is already
    stored makes [Create] fail with [ErrAlreadyExists]; and on a store that
    does not hold the id but refuses the write, [Create] fails with the
    error of the store. *)
Lemma Create_valid_input_duplicate_fails :
  registry.validateAgentID (registry.CreateInput.ID Fixtures.validCreateInput) = None
  /\ registry.ValidateAgentCard (registry.CreateInput.Card Fixtures.validCreateInput) = None
  /\ fst (fst (run (registry.answer_sys MemoryStore.impl Fixtures.tickingClock)
                 (registry.Create Fixtures.validCreateInput) Fixtures.embeddedWorld))
     = Err ErrAlreadyExists
  /\ fst (Stubs.fullStore _ (store.GetAgent "test-agent") 0%nat) = Err ErrNotFound
  /\ fst (fst (run (registry.answer_sys Stubs.fullStore Fixtures.tickingClock)
                 (registry.Create Fixtures.validCreateInput) Stubs.stubWorld))
     = Err (ErrExternal "disk full").
Proof. repeat split. Qed.

(** For every existing agent and every valid card, a successful [Update] on
    a store that keeps the contract of [Store] replaces the stored card and
    tags with the input, clears the embedding, preserves [CreatedAt] and
    the id, and sets [UpdatedAt] to the reading of the clock at the update;
    [UpdatedAt] increases strictly exactly when that reading is later than
    the stored [UpdatedAt]. *)
Theorem Update_replaces_card_and_stamps {St : Type} (impl : registry.StoreImpl St)
  (clock : nat -> Time) (w w1 : registry.World St) (input : registry.UpdateInput.t)
  (existing result : store.RegisteredAgent) (tr : list (entry registry.Sys)) :
  Spec.StoreContract impl ->
  registry.ValidateAgentCard (registry.UpdateInput.Card input) = None ->
  fst (impl _ (store.GetAgent (registry.UpdateInput.ID input)) (registry.the_store w))
    = Ok existing ->
  run (registry.answer_sys impl clock) (registry.Update input) w = (Ok result, w1, tr) ->
  fst (impl _ (store.GetAgent (registry.UpdateInput.ID input)) (registry.the_store w1))
    = Ok result
  /\ store.ID result = registry.UpdateInput.ID input
  /\ store.Card result = registry.UpdateInput.Card input
  /\ store.Tags result = registry.UpdateInput.Tags input
  /\ store.Embedding result = None
  /\ store.CreatedAt result = store.CreatedAt existing
  /\ store.UpdatedAt result = clock (registry.clock_reads w)
  /\ ((store.UpdatedAt existing < store.UpdatedAt result)%Z
      <-> (store.UpdatedAt existing < clock (registry.clock_reads w))%Z).
Proof.
  intros HC Hcard Hget Hrun.
  destruct (impl _ (store.GetAgent (registry.UpdateInput.ID input)) (registry.the_store w))
    as [r s1] eqn:E.
  simpl in Hget; subst r.
  rewrite (run_Update_valid impl clock input w existing s1 Hcard E) in Hrun.
  set (agent := Spec.updated input existing (clock (registry.clock_reads w))) in *.
  destruct (fst (impl _ (store.UpdateAgent agent) s1)) as [e |] eqn:Hupd;
    [discriminate |].
  injection Hrun as <- <- <-.
  assert (Hsame : store.ID existing = registry.UpdateInput.ID input).
  { apply (Spec.get_same_id impl HC _ (registry.the_store w)).
    now rewrite E. }
  assert (Hid : store.ID agent = registry.UpdateInput.ID input) by exact Hsame.
  split.
  - simpl. rewrite <- Hid.
    exact (Spec.get_after_update impl HC agent s1 Hupd).
  - repeat split; auto.
Qed.

Lemma Update_replaces_card_and_stamps_witness :
  exists result w1,
    fst (MemoryStore.impl _ (store.GetAgent "test-agent") (registry.the_store w1))
      = Ok result
    /\ store.ID result = "test-agent"
    /\ store.Card result = registry.UpdateInput.Card Fixtures.updateInput
    /\ store.Tags result = ["updated"]
    /\ store.Embedding result = None
    /\ store.CreatedAt result = 1600000000%Z
    /\ store.UpdatedAt result = 1700000000%Z
    /\ ((1600000500 < store.UpdatedAt result)%Z <-> (1600000500 < 1700000000)%Z).
Proof.
  eexists; eexists.
  eapply (Update_replaces_card_and_stamps MemoryStore.impl Fixtures.tickingClock
            Fixtures.embeddedWorld _ Fixtures.updateInput Fixtures.embeddedAgent).
  - exact MemoryStore_contract.
  - reflexivity.
  - reflexivity.
  - reflexivity.
Defined.

(** C2.  The code at the failing input: an agent created and then updated
    while the clock reads the same instant.  The update succeeds and
    [UpdatedAt] is what it was, where the claim wants it strictly later, as
    does the test of the repository ([UpdatedAt] after the creation time):
    [Update] takes the reading of the clock as it is, without making sure
    that it is past the stored [UpdatedAt]. *)
Lemma Update_stalled_clock_keeps_UpdatedAt :
  let existing := Spec.created Fixtures.validCreateInput 1700000000%Z in
  let result := Spec.updated Fixtures.updateInput existing 1700000000%Z in
  fst (MemoryStore.impl _ (store.GetAgent "test-agent")
         (registry.the_store Fixtures.createdWorld)) = Ok existing
  /\ registry.ValidateAgentCard (registry.UpdateInput.Card Fixtures.updateInput) = None
  /\ fst (fst (run (registry.answer_sys MemoryStore.impl Fixtures.stalledClock)
                 (registry.Update Fixtures.updateInput) Fixtures.createdWorld))
     = Ok result
  /\ store.UpdatedAt result = store.UpdatedAt existing
  /\ ~ (store.UpdatedAt existing < store.UpdatedAt result)%Z.
Proof.
  repeat split.
  vm_compute; discriminate.
Qed.

(** C3.  The filter [List] passes to the store, in its only call, has the
    limit 20 when the input limit is at most 0, 100 when it is above 100 and
    the input limit otherwise; the offset 0 when the input offset is
    negative and the input offset otherwise; and the tags, skills and query
    of the input. *)
Theorem List_normalizes_limit_and_offset (input : registry.ListInput.t) :
  exists filter,
    registry.List input = call (registry.StoreCall (store.ListAgents filter))
    /\ ((registry.ListInput.Limit input <= 0)%Z -> store.Limit filter = 20%Z)
    /\ ((100 < registry.ListInput.Limit input)%Z -> store.Limit filter = 100%Z)
    /\ ((0 < registry.ListInput.Limit input <= 100)%Z ->
        store.Limit filter = registry.ListInput.Limit input)
    /\ ((registry.ListInput.Offset input < 0)%Z -> store.Offset filter = 0%Z)
    /\ ((0 <= registry.ListInput.Offset input)%Z ->
        store.Offset filter = registry.ListInput.Offset input)
    /\ store.FilterTags filter = registry.ListInput.Tags input
    /\ store.FilterSkills filter = registry.ListInput.Skills input
    /\ store.Query filter = registry.ListInput.Query input.
Proof.
  eexists; split; [reflexivity |].
  destruct input as [offset limit tags skills query]; simpl.
  destruct (Z.leb_spec limit 0) as [Hl | Hl]; simpl.
  - destruct (Z.ltb_spec offset 0); simpl; repeat split; intros; lia.
  - destruct (Z.ltb_spec 100 limit) as [Hh | Hh]; simpl;
      destruct (Z.ltb_spec offset 0); simpl; repeat split; intros; lia.
Qed.

(** The call [List] makes, seen on any store: one [ListAgents], whose
    answer is returned as it is. *)
Lemma run_List {St : Type} (impl : registry.StoreImpl St) (clock : nat -> Time)
  (w : registry.World St) (input : registry.ListInput.t) :
  exists filter answer w1,
    run (registry.answer_sys impl clock) (registry.List input) w
    = (answer, w1, [Entry (registry.StoreCall (store.ListAgents filter)) answer]).
Proof.
  unfold registry.List, call; simpl.
  destruct (impl _ _ (registry.the_store w)) as [answer s1].
  do 3 eexists; reflexivity.
Qed.

(** C7.  When the id or the card of the input fails validation, [Create]
    returns the validation error and makes no call: the trace is empty and
    the world, the store with it, is unchanged.  An invalid id is reported
    whatever the card is, so the id error wins when both are invalid.
    [Update] with an invalid card does the same. *)
Theorem validation_fails_before_any_store_call {St : Type}
  (impl : registry.StoreImpl St) (clock : nat -> Time) (w : registry.World St) :
  (forall input e,
      registry.validateAgentID (registry.CreateInput.ID input) = Some e ->
      registry.Create input = Ret (Err e)
      /\ run (registry.answer_sys impl clock) (registry.Create input) w = (Err e, w, []))
  /\ (forall input e,
        registry.validateAgentID (registry.CreateInput.ID input) = None ->
        registry.ValidateAgentCard (registry.CreateInput.Card input) = Some e ->
        registry.Create input = Ret (Err e)
        /\ run (registry.answer_sys impl clock) (registry.Create input) w = (Err e, w, []))
  /\ (forall input e,
        registry.ValidateAgentCard (registry.UpdateInput.Card input) = Some e ->
        registry.Update input = Ret (Err e)
        /\ run (registry.answer_sys impl clock) (registry.Update input) w = (Err e, w, [])).
Proof.
  split; [| split].
  - intros input e Hid; unfold registry.Create; rewrite Hid; split; reflexivity.
  - intros input e Hid Hcard; unfold registry.Create; rewrite Hid, Hcard.
    split; reflexivity.
  - intros input e Hcard; unfold registry.Update; rewrite Hcard; split; reflexivity.
Qed.

(** The inputs of the fixtures, on the in-memory store that already holds
    an agent: the id error for an input invalid twice over, the card error
    for an update, and the store as it was. *)
Lemma validation_fails_before_any_store_call_witness :
  run (registry.answer_sys MemoryStore.impl Fixtures.tickingClock)
    (registry.Create Fixtures.invalidCreateInput) Fixtures.embeddedWorld
  = (Err (Errorf "agent_id must match pattern ^[a-zA-Z0-9_-]+$"),
     Fixtures.embeddedWorld, [])
  /\ run (registry.answer_sys MemoryStore.impl Fixtures.tickingClock)
       (registry.Update Fixtures.invalidUpdateInput) Fixtures.embeddedWorld
     = (Err (Errorf "invalid agent card: name is required, url is required, version is required, at least one skill is required"),
        Fixtures.embeddedWorld, []).
Proof.
  destruct (validation_fails_before_any_store_call MemoryStore.impl
              Fixtures.tickingClock Fixtures.embeddedWorld) as (Hid & _ & Hcard).
  split.
  - apply (Hid Fixtures.invalidCreateInput); reflexivity.
  - apply (Hcard Fixtures.invalidUpdateInput); reflexivity.
Defined.

(** ** The in-memory store: listing *)

Section Listing.

Import store MemoryStore.

Lemma insertNewestFirst_perm (a : RegisteredAgent) (l : list RegisteredAgent) :
  Permutation (a :: l) (insertNewestFirst a l).
Proof.
  induction l as [| b rest IH]; simpl; [reflexivity |].
  destruct (CreatedAt b <=? CreatedAt a)%Z; [reflexivity |].
  rewrite perm_swap; now constructor.
Qed.

Lemma sortNewestFirst_perm (l : list RegisteredAgent) :
  Permutation l (sortNewestFirst l).
Proof.
  induction l as [| a rest IH]; simpl; [constructor |].
  rewrite <- insertNewestFirst_perm; now constructor.
Qed.

Lemma insertNewestFirst_sorted (a : RegisteredAgent) (l : list RegisteredAgent) :
  StronglySorted Spec.newestFirst l ->
  StronglySorted Spec.newestFirst (insertNewestFirst a l).
Proof.
  induction 1 as [| b rest Hrest IH Hb]; simpl.
  - repeat constructor.
  - destruct (Z.leb_spec (CreatedAt b) (CreatedAt a)) as [Hle | Hgt].
    + constructor; [now constructor |].
      constructor; [exact Hle |].
      eapply Forall_impl; [| exact Hb].
      unfold Spec.newestFirst; intros c Hc; lia.
    + constructor; [exact IH |].
      rewrite <- insertNewestFirst_perm.
      constructor; [unfold Spec.newestFirst; lia | exact Hb].
Qed.

Lemma sortNewestFirst_sorted (l : list RegisteredAgent) :
  StronglySorted Spec.newestFirst (sortNewestFirst l).
Proof.
  induction l as [| a rest IH]; simpl;
    [constructor | now apply insertNewestFirst_sorted].
Qed.

(** Insertion keeps the records of one instant in their order: the record
    inserted passes only strictly newer ones. *)
Lemma insertNewestFirst_stable (t : Time) (a : RegisteredAgent)
  (l : list RegisteredAgent) :
  filter (Spec.createdAtInstant t) (insertNewestFirst a l)
  = filter (Spec.createdAtInstant t) (a :: l).
Proof.
  induction l as [| b rest IH]; [reflexivity |].
  cbn [insertNewestFirst].
  destruct (Z.leb_spec (CreatedAt b) (CreatedAt a)) as [Hle | Hgt]; [reflexivity |].
  cbn [filter] in *; rewrite IH.
  unfold Spec.createdAtInstant.
  destruct (Z.eqb_spec (CreatedAt a) t), (Z.eqb_spec (CreatedAt b) t);
    try reflexivity; lia.
Qed.

Lemma sortNewestFirst_stable (t : Time) (l : list RegisteredAgent) :
  filter (Spec.createdAtInstant t) (sortNewestFirst l)
  = filter (Spec.createdAtInstant t) l.
Proof.
  induction l as [| a rest IH]; [reflexivity |].
  cbn [sortNewestFirst]; rewrite insertNewestFirst_stable.
  cbn [filter]; now rewrite IH.
Qed.

Lemma paginate_skip_take (offset limit : Z) (l : list RegisteredAgent) :
  paginate offset limit l = firstn (Z.to_nat limit) (skipn (Z.to_nat offset) l).
Proof.
  unfold paginate.
  destruct (Z.leb_spec (Z.of_nat (length l)) offset) as [Hpast | Hin]; [| reflexivity].
  rewrite skipn_all2 by lia.
  now rewrite firstn_nil.
Qed.

End Listing.

(** C8.  For every content of the in-memory store and every filter,
    [ListAgents] returns as [Total] the number of records that match the
    filter, counted before pagination, and as page the matched records
    sorted by [CreatedAt], newest first, records of one instant staying in
    insertion order, with the first [Offset] of them skipped and at most
    [Limit] taken.  An offset at or past the total gives an empty page, with
    [Total] still the number of matches.  The store is left as it was. *)
Theorem ListAgents_counts_sorts_and_pages (filter : store.AgentFilter)
  (s : MemoryStore.t) :
  let matched := List.filter (MemoryStore.matches filter) s in
  exists sorted page,
    MemoryStore.ListAgents filter s
    = (Ok {| store.Agents := page; store.Total := Z.of_nat (length matched) |}, s)
    /\ Permutation matched sorted
    /\ StronglySorted Spec.newestFirst sorted
    /\ (forall t, List.filter (Spec.createdAtInstant t) sorted
                  = List.filter (Spec.createdAtInstant t) matched)
    /\ page = firstn (Z.to_nat (store.Limit filter))
                (skipn (Z.to_nat (store.Offset filter)) sorted)
    /\ (Z.of_nat (length page) <= Z.max 0 (store.Limit filter))%Z
    /\ ((Z.of_nat (length matched) <= store.Offset filter)%Z -> page = []).
Proof.
  intros matched.
  exists (MemoryStore.sortNewestFirst matched).
  exists (MemoryStore.paginate (store.Offset filter) (store.Limit filter)
            (MemoryStore.sortNewestFirst matched)).
  split; [reflexivity |].
  split; [apply sortNewestFirst_perm |].
  split; [apply sortNewestFirst_sorted |].
  split; [intros t; apply sortNewestFirst_stable |].
  split; [apply paginate_skip_take |].
  split.
  - rewrite paginate_skip_take.
    pose proof (firstn_le_length (Z.to_nat (store.Limit filter))
                  (skipn (Z.to_nat (store.Offset filter))
                     (MemoryStore.sortNewestFirst matched))) as H.
    lia.
  - intros Hpast; unfold MemoryStore.paginate.
    rewrite <- (Permutation_length (sortNewestFirst_perm matched)).
    destruct (Z.leb_spec (Z.of_nat (length matched)) (store.Offset filter));
      [reflexivity | lia].
Qed.

(** The pagination test: offset 1 and limit 2 over five records gives two
    records, the second and third newest, and a total of five. *)
Example ListAgents_pagination_test :
  fst (MemoryStore.ListAgents (Fixtures.pageFilter 1 2) Fixtures.fiveAgents)
  = Ok {| store.Agents := [ Fixtures.validAgent "agent-d" 1700000003%Z;
                            Fixtures.validAgent "agent-c" 1700000002%Z ];
          store.Total := 5 |}.
Proof. reflexivity. Qed.

(** Newest first, the two records of one instant in insertion order. *)
Example ListAgents_tie_test :
  option_map (fun r => map store.ID (store.Agents r))
    (match fst (MemoryStore.ListAgents (Fixtures.pageFilter 0 10) Fixtures.tiedAgents)
     with Ok r => Some r | Err _ => None end)
  = Some ["agent-new"; "tie-1"; "tie-2"; "agent-old"].
Proof. reflexivity. Qed.

Example ListAgents_offset_past_total :
  fst (MemoryStore.ListAgents (Fixtures.pageFilter 5 10) Fixtures.fiveAgents)
  = Ok {| store.Agents := []; store.Total := 5 |}.
Proof. reflexivity. Qed.

(** ** The Qdrant-backed store: construction *)

Section QdrantConstruction.

Import QdrantStore.

Context {W : Type} (answer : forall X, qdrant.Call X -> W -> X * W).

(** The three ways [NewQdrantStore] can go, with the calls made in each:
    no client; a client whose probe fails, closed before the error is
    returned; a client whose probe succeeds, returned in the store. *)
Lemma NewQdrantStore_cases (opts : list Option) (w : W) :
  let options := fold_left (fun o (opt : Option) => opt o) opts DefaultOptions in
  let cfg := config_of options in
  let r := fst (fst (run answer (NewQdrantStore opts) w)) in
  let tr := snd (run answer (NewQdrantStore opts) w) in
  (exists e,
      r = Err (Wrapf "failed to create qdrant client: " e)
      /\ tr = [Entry (qdrant.NewClient cfg) (Err e)])
  \/ (exists c e x,
        r = Err (Wrapf "failed to connect to qdrant: "
                   (Wrapf "qdrant health check failed: " e))
        /\ tr = [Entry (qdrant.NewClient cfg) (Ok c);
                 Entry (qdrant.HealthCheck (Some c)) (Err e);
                 Entry (qdrant.ClientClose c) x])
  \/ (exists c reply,
        r = Ok {| client := Some c |}
        /\ tr = [Entry (qdrant.NewClient cfg) (Ok c);
                 Entry (qdrant.HealthCheck (Some c)) (Ok reply)]).
Proof.
  intros options cfg r tr; subst r tr.
  unfold NewQdrantStore; fold options; fold cfg.
  cbn [bind call run].
  destruct (answer _ (qdrant.NewClient cfg) w) as [[c | e] w1].
  - cbn [bind call run Ping Close client].
    destruct (answer _ (qdrant.HealthCheck (Some c)) w1) as [[reply | e] w2].
    + right; right; exists c, reply; split; reflexivity.
    + cbn [bind call run Ping Close client].
      destruct (answer _ (qdrant.ClientClose c) w2) as [x w3].
      right; left; exists c, e, x; split; reflexivity.
  - left; exists e; split; reflexivity.
Qed.

End QdrantConstruction.

(** C9.  [NewQdrantStore] probes the health of the server during
    construction: once the client is created, the next call is the health
    check on that client.  When the probe succeeds nothing else is called
    and the store is returned; when it fails the client is closed and an
    error is returned.  So whenever a probe fails the client is closed and
    the result is an error, and whenever a store is returned the probe was
    made and did not fail, and the client was not closed. *)
Theorem NewQdrantStore_fails_fast {W : Type}
  (answer : forall X, qdrant.Call X -> W -> X * W)
  (opts : list QdrantStore.Option) (w : W) :
  let cfg := QdrantStore.config_of
               (fold_left (fun o (opt : QdrantStore.Option) => opt o) opts
                  QdrantStore.DefaultOptions) in
  let r := fst (fst (run answer (QdrantStore.NewQdrantStore opts) w)) in
  let tr := snd (run answer (QdrantStore.NewQdrantStore opts) w) in
  (forall c,
      fst (answer _ (qdrant.NewClient cfg) w) = Ok c ->
      let probe := fst (answer _ (qdrant.HealthCheck (Some c))
                          (snd (answer _ (qdrant.NewClient cfg) w))) in
      exists rest,
        tr = Entry (qdrant.NewClient cfg) (Ok c)
               :: Entry (qdrant.HealthCheck (Some c)) probe :: rest
        /\ (is_ok probe = true ->
            r = Ok {| QdrantStore.client := Some c |} /\ rest = [])
        /\ (is_ok probe = false ->
            is_ok r = false /\ exists x, rest = [Entry (qdrant.ClientClose c) x]))
  /\ (existsb QdrantStore.is_failed_probe tr = true ->
      exists c e x before,
        r = Err (Wrapf "failed to connect to qdrant: "
                   (Wrapf "qdrant health check failed: " e))
        /\ tr = (before ++ [Entry (qdrant.HealthCheck (Some c)) (Err e);
                            Entry (qdrant.ClientClose c) x])%list)
  /\ (forall st, r = Ok st ->
      exists c,
        QdrantStore.client st = Some c
        /\ existsb QdrantStore.is_probe tr = true
        /\ existsb QdrantStore.is_failed_probe tr = false
        /\ existsb (QdrantStore.is_close_of c) tr = false)
  /\ (is_ok r = false \/ existsb QdrantStore.is_probe tr = true).
Proof.
  intros cfg r tr.
  split.
  - intros c Hclient probe.
    subst r tr probe.
    unfold QdrantStore.NewQdrantStore; fold cfg.
    cbn [bind call run].
    destruct (answer _ (qdrant.NewClient cfg) w) as [rc w1].
    cbn [fst snd] in *; subst rc.
    cbn [bind call run QdrantStore.Ping QdrantStore.Close QdrantStore.client].
    destruct (answer _ (qdrant.HealthCheck (Some c)) w1) as [[reply | e] w2];
      cbn [bind call run QdrantStore.Ping QdrantStore.Close QdrantStore.client fst snd].
    + eexists; split; [reflexivity |].
      split; [intros _; split; reflexivity | discriminate].
    + destruct (answer _ (qdrant.ClientClose c) w2) as [x w3]; cbn [fst snd].
      eexists; split; [reflexivity |].
      split; [discriminate |].
      intros _; split; [reflexivity | exists x; reflexivity].
  - destruct (NewQdrantStore_cases answer opts w)
      as [(e & Hr & Htr) | [(c & e & x & Hr & Htr) | (c & reply & Hr & Htr)]];
      fold r in Hr; fold tr in Htr; rewrite Hr, Htr.
    + split; [discriminate |].
      split; [discriminate | now left].
    + split.
      * intros _.
        exists c, e, x; eexists [_]; split; reflexivity.
      * split; [discriminate | now left].
    + split; [discriminate |].
      split; [| now right].
      intros st [= <-]; exists c; repeat split.
Qed.

(** A server whose health check fails: three calls, the last one closing
    the client, and the error of the failed connection. *)
Example NewQdrantStore_down :
  run Fixtures.downQdrant (QdrantStore.NewQdrantStore [QdrantStore.WithPort 7000]) 0%nat
  = (Err (Wrapf "failed to connect to qdrant: "
            (Wrapf "qdrant health check failed: " (ErrExternal "connection refused"))),
     3%nat,
     [Entry (qdrant.NewClient {| qdrant.Host := "localhost"; qdrant.Port := 7000;
                                 qdrant.APIKey := ""; qdrant.UseTLS := false |})
        (Ok 7%nat);
      Entry (qdrant.HealthCheck (Some 7%nat)) (Err (ErrExternal "connection refused"));
      Entry (qdrant.ClientClose 7%nat) None]).
Proof. reflexivity. Qed.

Example NewQdrantStore_up :
  fst (run Fixtures.upQdrant (QdrantStore.NewQdrantStore []) 0%nat)
  = (Ok {| QdrantStore.client := Some 7%nat |}, 2%nat).
Proof. reflexivity. Qed.

(** ** The health endpoint *)

(** C10.  A [HealthHandler] made with a nil checker answers 200 with status
    [healthy] and check [up], and makes no probe.  With a checker it pings
    it once, and answers 200, [healthy], [up] exactly when the ping
    succeeds and 503, [unhealthy], [down] exactly when it fails. *)
Theorem HealthHandler_reports_ping {W : Type}
  (answer : forall X, handler.Call X -> W -> X * W) (w : W) :
  run answer (handler.ServeHTTP (handler.NewHealthHandler None)) w
  = (Spec.healthyWritten, w, [])
  /\ (forall checker,
        let err := fst (answer _ (handler.CheckerPing checker) w) in
        let written :=
          fst (fst (run answer
                      (handler.ServeHTTP (handler.NewHealthHandler (Some checker))) w)) in
        snd (run answer (handler.ServeHTTP (handler.NewHealthHandler (Some checker))) w)
        = [Entry (handler.CheckerPing checker) err]
        /\ (written = Spec.healthyWritten <-> err = None)
        /\ (written = Spec.unhealthyWritten <-> err <> None))
  /\ handler.StatusCode Spec.healthyWritten = 200%Z
  /\ handler.StatusCode Spec.unhealthyWritten = 503%Z.
Proof.
  split; [reflexivity |].
  split; [| split; reflexivity].
  intros checker; cbn zeta.
  unfold handler.ServeHTTP, handler.NewHealthHandler; cbn [handler.store bind call run].
  destruct (answer _ (handler.CheckerPing checker) w) as [[e |] w1]; cbn.
  - split; [reflexivity |].
    split; split; intros H; try discriminate; try reflexivity.
  - split; [reflexivity |].
    split; split; intros H; try discriminate; try reflexivity.
    now contradiction H.
Qed.

Example HealthHandler_down :
  run Fixtures.downChecker (handler.ServeHTTP (handler.NewHealthHandler (Some 1%nat))) 0%nat
  = (Spec.unhealthyWritten, 1%nat,
     [Entry (handler.CheckerPing 1%nat) (Some (ErrExternal "unreachable"))]).
Proof. reflexivity. Qed.

Example HealthHandler_up :
  run Fixtures.upChecker (handler.ServeHTTP (handler.NewHealthHandler (Some 1%nat))) 0%nat
  = (Spec.healthyWritten, 1%nat, [Entry (handler.CheckerPing 1%nat) None]).
Proof. reflexivity. Qed.

(** * Further properties of the code *)

(** ** Registry service: errors of the store and the calls made *)

Lemma run_store_call {St : Type} (impl : registry.StoreImpl St)
  (clock : nat -> Time) (w : registry.World St) {X : Type} (c : store.Call X) :
  run (registry.answer_sys impl clock) (call (registry.StoreCall c)) w
  = (fst (impl _ c (registry.the_store w)),
     {| registry.the_store := snd (impl _ c (registry.the_store w));
        registry.clock_reads := registry.clock_reads w |},
     [Entry (registry.StoreCall c) (fst (impl _ c (registry.the_store w)))]).
Proof.
  unfold call; cbn [run registry.answer_sys].
  destruct (impl _ c (registry.the_store w)) as [answer s1]; reflexivity.
Qed.

(** On every store, [List] makes one call, [ListAgents], with a limit
    between 1 and 100 and an offset that is not negative; it returns the
    answer of the store as it is and does not read the clock. *)
Theorem List_filter_within_bounds {St : Type} (impl : registry.StoreImpl St)
  (clock : nat -> Time) (w : registry.World St) (input : registry.ListInput.t) :
  exists filter,
    run (registry.answer_sys impl clock) (registry.List input) w
    = (fst (impl _ (store.ListAgents filter) (registry.the_store w)),
       {| registry.the_store := snd (impl _ (store.ListAgents filter) (registry.the_store w));
          registry.clock_reads := registry.clock_reads w |},
       [Entry (registry.StoreCall (store.ListAgents filter))
          (fst (impl _ (store.ListAgents filter) (registry.the_store w)))])
    /\ (1 <= store.Limit filter <= 100)%Z
    /\ (0 <= store.Offset filter)%Z.
Proof.
  eexists; split.
  - unfold registry.List; apply run_store_call.
  - destruct input as [offset limit tags skills query]; simpl.
    destruct (Z.leb_spec limit 0); simpl.
    + destruct (Z.ltb_spec offset 0); simpl; lia.
    + destruct (Z.ltb_spec 100 limit); simpl;
        destruct (Z.ltb_spec offset 0); simpl; lia.
Qed.

(** When the store refuses a valid input, [Create] returns the error of the
    store as it is, with no record.  It has read the clock once and made one
    store call, [CreateAgent]: it does not look the id up first. *)
Theorem Create_returns_store_error {St : Type} (impl : registry.StoreImpl St)
  (clock : nat -> Time) (w : registry.World St) (input : registry.CreateInput.t)
  (e : error) :
  registry.validateAgentID (registry.CreateInput.ID input) = None ->
  registry.ValidateAgentCard (registry.CreateInput.Card input) = None ->
  (forall agent,
      store.ID agent = registry.CreateInput.ID input ->
      fst (impl _ (store.CreateAgent agent) (registry.the_store w)) = Some e) ->
  exists agent w1,
    run (registry.answer_sys impl clock) (registry.Create input) w
    = (Err e, w1,
       [Entry registry.TimeNow (clock (registry.clock_reads w));
        Entry (registry.StoreCall (store.CreateAgent agent)) (Some e)])
    /\ registry.clock_reads w1 = S (registry.clock_reads w).
Proof.
  intros Hid Hcard Hrefuse.
  pose (agent := Spec.created input (clock (registry.clock_reads w))).
  exists agent; eexists.
  rewrite (run_Create_valid impl clock input w Hid Hcard); fold agent.
  rewrite (Hrefuse agent eq_refl).
  split; reflexivity.
Qed.

Lemma Create_returns_store_error_witness :
  exists agent w1,
    run (registry.answer_sys Stubs.brokenStore Fixtures.tickingClock)
      (registry.Create Fixtures.validCreateInput) Stubs.stubWorld
    = (Err (ErrExternal "connection lost"), w1,
       [Entry registry.TimeNow 1700000000%Z;
        Entry (registry.StoreCall (store.CreateAgent agent))
          (Some (ErrExternal "connection lost"))])
    /\ registry.clock_reads w1 = 1%nat.
Proof.
  apply (Create_returns_store_error Stubs.brokenStore Fixtures.tickingClock
           Stubs.stubWorld Fixtures.validCreateInput).
  - reflexivity.
  - reflexivity.
  - intros agent _; reflexivity.
Defined.

(** [Update] does not validate the id.  With a valid card it asks the store
    for the id as given; when the store has no such agent (or fails), the
    error comes back as it is, and nothing else happened: no clock reading,
    no write. *)
Theorem Update_lookup_failure_writes_nothing {St : Type}
  (impl : registry.StoreImpl St) (clock : nat -> Time) (w : registry.World St)
  (input : registry.UpdateInput.t) (e : error) :
  registry.ValidateAgentCard (registry.UpdateInput.Card input) = None ->
  fst (impl _ (store.GetAgent (registry.UpdateInput.ID input)) (registry.the_store w))
    = Err e ->
  run (registry.answer_sys impl clock) (registry.Update input) w
  = (Err e,
     {| registry.the_store :=
          snd (impl _ (store.GetAgent (registry.UpdateInput.ID input))
                 (registry.the_store w));
        registry.clock_reads := registry.clock_reads w |},
     [Entry (registry.StoreCall (store.GetAgent (registry.UpdateInput.ID input)))
        (Err e)]).
Proof.
  intros Hcard Hget; unfold registry.Update.
  rewrite Hcard; cbn [bind call run registry.answer_sys].
  destruct (impl _ _ (registry.the_store w)) as [r s1].
  simpl in Hget; subst r; reflexivity.
Qed.

Lemma Update_lookup_failure_writes_nothing_witness :
  run (registry.answer_sys Stubs.emptyStore Fixtures.tickingClock)
    (registry.Update {| registry.UpdateInput.ID := "agent@invalid";
                        registry.UpdateInput.Card := Fixtures.validAgentCard;
                        registry.UpdateInput.Tags := [] |}) Stubs.stubWorld
  = (Err ErrNotFound,
     {| registry.the_store := 1%nat; registry.clock_reads := 0%nat |},
     [Entry (registry.StoreCall (store.GetAgent "agent@invalid")) (Err ErrNotFound)]).
Proof.
  apply (Update_lookup_failure_writes_nothing Stubs.emptyStore Fixtures.tickingClock
           Stubs.stubWorld).
  - reflexivity.
  - reflexivity.
Defined.

(** When the store finds the agent and then refuses the write, [Update]
    returns the error of the store as it is.  The record it tried to write
    has the id and [CreatedAt] of the stored record, not of the input. *)
Theorem Update_returns_store_error {St : Type} (impl : registry.StoreImpl St)
  (clock : nat -> Time) (w : registry.World St) (input : registry.UpdateInput.t)
  (existing : store.RegisteredAgent) (s1 : St) (e : error) :
  registry.ValidateAgentCard (registry.UpdateInput.Card input) = None ->
  impl _ (store.GetAgent (registry.UpdateInput.ID input)) (registry.the_store w)
    = (Ok existing, s1) ->
  (forall agent, fst (impl _ (store.UpdateAgent agent) s1) = Some e) ->
  exists agent w1,
    run (registry.answer_sys impl clock) (registry.Update input) w
    = (Err e, w1,
       [Entry (registry.StoreCall (store.GetAgent (registry.UpdateInput.ID input)))
          (Ok existing);
        Entry registry.TimeNow (clock (registry.clock_reads w));
        Entry (registry.StoreCall (store.UpdateAgent agent)) (Some e)])
    /\ store.ID agent = store.ID existing
    /\ store.CreatedAt agent = store.CreatedAt existing
    /\ store.Embedding agent = None.
Proof.
  intros Hcard Hget Hrefuse.
  pose (agent := Spec.updated input existing (clock (registry.clock_reads w))).
  exists agent; eexists.
  rewrite (run_Update_valid impl clock input w existing s1 Hcard Hget); fold agent.
  rewrite (Hrefuse agent).
  repeat split.
Qed.

Lemma Update_returns_store_error_witness :
  exists agent w1,
    run (registry.answer_sys Stubs.readOnlyStore Fixtures.tickingClock)
      (registry.Update Fixtures.updateInput) Stubs.stubWorld
    = (Err (ErrExternal "read-only"), w1,
       [Entry (registry.StoreCall (store.GetAgent "test-agent"))
          (Ok (Fixtures.validAgent "test-agent" 1600000000%Z));
        Entry registry.TimeNow 1700000000%Z;
        Entry (registry.StoreCall (store.UpdateAgent agent))
          (Some (ErrExternal "read-only"))])
    /\ store.ID agent = "test-agent"
    /\ store.CreatedAt agent = 1600000000%Z
    /\ store.Embedding agent = None.
Proof.
  apply (Update_returns_store_error Stubs.readOnlyStore Fixtures.tickingClock
           Stubs.stubWorld Fixtures.updateInput
           (Fixtures.validAgent "test-agent" 1600000000%Z) 1%nat).
  - reflexivity.
  - reflexivity.
  - intros agent; reflexivity.
Defined.

(** ** Validation: what the messages hold and what is not looked at *)

(** Replaces the code of a given character by its value. *)
Ltac eval_ascii :=
  repeat match goal with
    | |- context [nat_of_ascii (Ascii ?b0 ?b1 ?b2 ?b3 ?b4 ?b5 ?b6 ?b7)] =>
        let n := eval vm_compute in (nat_of_ascii (Ascii b0 b1 b2 b3 b4 b5 b6 b7)) in
        change (nat_of_ascii (Ascii b0 b1 b2 b3 b4 b5 b6 b7)) with n
    | H : context [nat_of_ascii (Ascii ?b0 ?b1 ?b2 ?b3 ?b4 ?b5 ?b6 ?b7)] |- _ =>
        let n := eval vm_compute in (nat_of_ascii (Ascii b0 b1 b2 b3 b4 b5 b6 b7)) in
        change (nat_of_ascii (Ascii b0 b1 b2 b3 b4 b5 b6 b7)) with n in H
    end.

Section MoreValidation.

Import a2a registry.

Lemma append_assoc (a b c : string) : (a ++ b) ++ c = a ++ (b ++ c).
Proof. induction a as [| x a IH]; simpl; [reflexivity | now rewrite IH]. Qed.

Lemma length_append (a b : string) :
  String.length (a ++ b) = (String.length a + String.length b)%nat.
Proof. induction a as [| x a IH]; simpl; [reflexivity | now rewrite IH]. Qed.

Lemma list_ascii_of_string_append (a b : string) :
  list_ascii_of_string (a ++ b)
  = (list_ascii_of_string a ++ list_ascii_of_string b)%list.
Proof. induction a as [| x a IH]; simpl; [reflexivity | now rewrite IH]. Qed.

(** Every element joined is a part of the joined string. *)
Lemma Join_contains (sep v : string) (l : list string) :
  In v l -> exists before after, Join l sep = before ++ v ++ after.
Proof.
  induction l as [| x rest IH]; [intros [] |].
  intros [-> | Hin].
  - exists "". destruct rest as [| y rest'].
    + exists ""; simpl.
      induction v as [| c v IHv]; simpl; [reflexivity | now rewrite <- IHv].
    + exists (sep ++ Join (y :: rest') sep); reflexivity.
  - destruct (IH Hin) as (before & after & Hj).
    destruct rest as [| y rest']; [destruct Hin |].
    exists (x ++ sep ++ before), after.
    change (Join (x :: y :: rest') sep) with (x ++ sep ++ Join (y :: rest') sep).
    now rewrite Hj, !append_assoc.
Qed.

(** Two lists of skills with the same fields empty at the same positions
    give the same messages. *)
Lemma range_skills_same_shape (s1 : list AgentSkill) :
  forall (s2 : list AgentSkill) (i : nat) (errs : list string),
    map (fun sk => (is_empty (SkillID sk), is_empty (SkillName sk))) s1
    = map (fun sk => (is_empty (SkillID sk), is_empty (SkillName sk))) s2 ->
    range_skills i s1 errs = range_skills i s2 errs.
Proof.
  induction s1 as [| a s1 IH]; intros [| b s2] i errs Hshape;
    try discriminate; [reflexivity |].
  simpl in Hshape; injection Hshape as Hid Hname Hrest.
  simpl; rewrite Hid, Hname.
  now apply IH.
Qed.

(** The decimal form of an index is made of digits, and tells the index. *)
Lemma string_of_uint_digits (d : Decimal.uint) :
  Forall (fun c => 48 <= nat_of_ascii c <= 57)
    (list_ascii_of_string (NilEmpty.string_of_uint d)).
Proof.
  induction d; simpl; constructor; auto; eval_ascii; lia.
Qed.

Lemma itoa_injective (i j : nat) : itoa i = itoa j -> i = j.
Proof.
  unfold itoa; intros H.
  apply (f_equal NilEmpty.uint_of_string) in H.
  rewrite !NilEmpty.usu in H.
  injection H as H.
  apply (f_equal Nat.of_uint) in H.
  now rewrite !DecimalNat.Unsigned.of_to in H.
Qed.

(** Digits followed by something that is not a digit: the digits can be
    read back. *)
Lemma digits_then_other (a : string) :
  forall (b : string) (c1 c2 : ascii) (s t : string),
    Forall (fun c => 48 <= nat_of_ascii c <= 57) (list_ascii_of_string a) ->
    Forall (fun c => 48 <= nat_of_ascii c <= 57) (list_ascii_of_string b) ->
    ~ (48 <= nat_of_ascii c1 <= 57) ->
    ~ (48 <= nat_of_ascii c2 <= 57) ->
    a ++ String c1 s = b ++ String c2 t ->
    a = b /\ String c1 s = String c2 t.
Proof.
  induction a as [| x a IH]; intros [| y b] c1 c2 s t Ha Hb H1 H2 Heq; simpl in *.
  - now split.
  - injection Heq as -> _. inversion Hb; subst. contradiction.
  - injection Heq as -> _. inversion Ha; subst. contradiction.
  - injection Heq as -> Heq.
    inversion Ha; inversion Hb; subst.
    destruct (IH b c1 c2 s t) as [-> Hrest]; auto.
Qed.

Lemma range_skills_single (i : nat) (sk : AgentSkill) (v : string) :
  In v (range_skills i [sk] []) ->
  v = "skill[" ++ itoa i ++ "].id is required"
  \/ v = "skill[" ++ itoa i ++ "].name is required".
Proof.
  simpl; unfold append_if.
  destruct (is_empty (SkillID sk)), (is_empty (SkillName sk)); simpl; intuition.
Qed.

End MoreValidation.

(** [ValidateAgentCard] looks at nothing but which fields are empty: two
    cards whose name, url and version are empty or not alike, and whose
    skills have, position by position, the same ids and names empty, get
    the same answer.  The description, the syntax of the url and the form
    of the version play no part. *)
Theorem ValidateAgentCard_sees_only_emptiness (c1 c2 : a2a.AgentCard) :
  is_empty (a2a.Name c1) = is_empty (a2a.Name c2) ->
  is_empty (a2a.URL c1) = is_empty (a2a.URL c2) ->
  is_empty (a2a.Version c1) = is_empty (a2a.Version c2) ->
  map (fun sk => (is_empty (a2a.SkillID sk), is_empty (a2a.SkillName sk))) (a2a.Skills c1)
  = map (fun sk => (is_empty (a2a.SkillID sk), is_empty (a2a.SkillName sk))) (a2a.Skills c2) ->
  registry.ValidateAgentCard c1 = registry.ValidateAgentCard c2.
Proof.
  intros Hn Hu Hv Hs.
  unfold registry.ValidateAgentCard, registry.card_errs.
  rewrite Hn, Hu, Hv.
  assert (Hlen : length (a2a.Skills c1) = length (a2a.Skills c2))
    by (apply (f_equal (@length _)) in Hs; now rewrite !length_map in Hs).
  rewrite Hlen.
  now rewrite (range_skills_same_shape _ _ _ _ Hs).
Qed.

Lemma ValidateAgentCard_sees_only_emptiness_witness :
  registry.ValidateAgentCard
    {| a2a.Name := "x"; a2a.Description := ""; a2a.URL := "not a url";
       a2a.Version := "?"; a2a.Skills := [ {| a2a.SkillID := " "; a2a.SkillName := "-" |} ] |}
  = registry.ValidateAgentCard Fixtures.validAgentCard.
Proof.
  apply ValidateAgentCard_sees_only_emptiness; reflexivity.
Defined.

(** Every violation found is a part of the message of the error, which is
    what the tests of the repository look for with [strings.Contains]. *)
Theorem ValidateAgentCard_message_contains_each_violation
  (card : a2a.AgentCard) (v : string) :
  In v (registry.card_errs card) ->
  exists e before after,
    registry.ValidateAgentCard card = Some e
    /\ error_message e = before ++ v ++ after.
Proof.
  intros Hin.
  destruct (Join_contains ", " v _ Hin) as (before & after & Hj).
  unfold registry.ValidateAgentCard.
  destruct (registry.card_errs card) as [| x rest] eqn:E; [destruct Hin |].
  eexists; exists ("invalid agent card: " ++ before), after.
  split; [reflexivity |].
  cbn [error_message].
  now rewrite Hj, append_assoc.
Qed.

Lemma ValidateAgentCard_message_contains_each_violation_witness :
  exists e before after,
    registry.ValidateAgentCard Fixtures.sloppyCard = Some e
    /\ error_message e = before ++ "skill[2].name is required" ++ after.
Proof.
  apply ValidateAgentCard_message_contains_each_violation.
  simpl; auto.
Defined.

(** A skill violation names its position: a message produced for the skill
    at position [i] is never produced for a skill at another position. *)
Theorem skill_violation_names_its_position (i j : nat)
  (sk1 sk2 : a2a.AgentSkill) (v : string) :
  In v (registry.range_skills i [sk1] []) ->
  In v (registry.range_skills j [sk2] []) ->
  i = j.
Proof.
  intros H1 H2.
  apply range_skills_single in H1, H2.
  apply itoa_injective.
  assert (Hd : forall n, Forall (fun c => 48 <= nat_of_ascii c <= 57)
                           (list_ascii_of_string (itoa n)))
    by (intros n; apply string_of_uint_digits).
  destruct H1 as [-> | ->], H2 as [H | H];
    injection H as H;
    apply digits_then_other in H; auto; try (eval_ascii; lia);
    destruct H as [H _]; exact H.
Qed.

Lemma skill_violation_names_its_position_witness :
  In "skill[12].id is required"
    (registry.range_skills 12 [ {| a2a.SkillID := ""; a2a.SkillName := "a" |} ] [])
  /\ In "skill[12].id is required"
       (registry.range_skills 12 [ {| a2a.SkillID := ""; a2a.SkillName := "" |} ] [])
  /\ 12%nat = 12%nat.
Proof.
  split; [simpl; auto |].
  split; [simpl; auto |].
  apply (skill_violation_names_its_position 12 12
           {| a2a.SkillID := ""; a2a.SkillName := "a" |}
           {| a2a.SkillID := ""; a2a.SkillName := "" |}
           "skill[12].id is required");
    simpl; auto.
Defined.

(** Accepted ids can be put together: two accepted ids of at most 64 bytes
    in all make an accepted id, and a non-empty beginning of an accepted
    id is accepted. *)
Theorem validateAgentID_concatenation (a b : string) :
  (registry.validateAgentID a = None ->
   registry.validateAgentID b = None ->
   (String.length a + String.length b <= 64)%nat ->
   registry.validateAgentID (a ++ b) = None)
  /\ (registry.validateAgentID (a ++ b) = None ->
      a <> "" ->
      registry.validateAgentID a = None).
Proof.
  split.
  - intros Ha Hb Hlen.
    apply validateAgentID_None in Ha as (Hne & _ & Hca).
    apply validateAgentID_None in Hb as (_ & _ & Hcb).
    apply validateAgentID_None; repeat split.
    + destruct a; [congruence | discriminate].
    + now rewrite length_append.
    + rewrite list_ascii_of_string_append; apply Forall_app; now split.
  - intros Hab Hne.
    apply validateAgentID_None in Hab as (_ & Hlen & Hc).
    rewrite length_append in Hlen.
    rewrite list_ascii_of_string_append in Hc; apply Forall_app in Hc as [Hca _].
    apply validateAgentID_None; repeat split; auto; lia.
Qed.

(** An accepted id is plain ASCII, so its length in bytes is its number of
    characters, and it holds none of the characters that would need care in
    the path of a URL or between quotes. *)
Theorem validateAgentID_accepted_is_path_safe (id : string) :
  registry.validateAgentID id = None ->
  Forall (fun c => (nat_of_ascii c < 128)%nat
                   /\ c <> "/"%char /\ c <> "?"%char /\ c <> "#"%char
                   /\ c <> "%"%char /\ c <> " "%char /\ c <> "'"%char
                   /\ c <> "."%char)
    (list_ascii_of_string id).
Proof.
  intros H.
  apply validateAgentID_None in H as (_ & _ & Hc).
  eapply Forall_impl; [| exact Hc].
  intros c Hid; unfold Spec.id_char in Hid; cbv zeta in Hid.
  repeat split; try lia; intros ->; eval_ascii; lia.
Qed.

Lemma validateAgentID_accepted_is_path_safe_witness :
  Forall (fun c => (nat_of_ascii c < 128)%nat
                   /\ c <> "/"%char /\ c <> "?"%char /\ c <> "#"%char
                   /\ c <> "%"%char /\ c <> " "%char /\ c <> "'"%char
                   /\ c <> "."%char)
    (list_ascii_of_string "valid-ID_123").
Proof.
  apply validateAgentID_accepted_is_path_safe; reflexivity.
Defined.

(** ** The Qdrant-backed store: options and failures *)

(** The first thing [NewQdrantStore] does is to create the client, with
    the defaults changed by the options in the order given.  With no
    option the client is created for localhost, port 6334, no API key and
    no TLS.  An option given last decides its field, whatever the options
    before it said, and leaves the other three fields as the options before
    it made them. *)
Theorem NewQdrantStore_last_option_wins (opts : list QdrantStore.Option)
  (host apiKey : string) (port : Z) (useTLS : bool) :
  (exists k0,
      QdrantStore.NewQdrantStore []
      = Vis (qdrant.NewClient
               {| qdrant.Host := "localhost"; qdrant.Port := 6334;
                  qdrant.APIKey := ""; qdrant.UseTLS := false |}) k0)
  /\ exists cfg k,
    QdrantStore.NewQdrantStore opts = Vis (qdrant.NewClient cfg) k
    /\ (exists k1,
          QdrantStore.NewQdrantStore (opts ++ [QdrantStore.WithHost host])
          = Vis (qdrant.NewClient
                   {| qdrant.Host := host; qdrant.Port := qdrant.Port cfg;
                      qdrant.APIKey := qdrant.APIKey cfg;
                      qdrant.UseTLS := qdrant.UseTLS cfg |}) k1)
    /\ (exists k2,
          QdrantStore.NewQdrantStore (opts ++ [QdrantStore.WithPort port])
          = Vis (qdrant.NewClient
                   {| qdrant.Host := qdrant.Host cfg; qdrant.Port := port;
                      qdrant.APIKey := qdrant.APIKey cfg;
                      qdrant.UseTLS := qdrant.UseTLS cfg |}) k2)
    /\ (exists k3,
          QdrantStore.NewQdrantStore (opts ++ [QdrantStore.WithAPIKey apiKey])
          = Vis (qdrant.NewClient
                   {| qdrant.Host := qdrant.Host cfg; qdrant.Port := qdrant.Port cfg;
                      qdrant.APIKey := apiKey;
                      qdrant.UseTLS := qdrant.UseTLS cfg |}) k3)
    /\ (exists k4,
          QdrantStore.NewQdrantStore (opts ++ [QdrantStore.WithTLS useTLS])
          = Vis (qdrant.NewClient
                   {| qdrant.Host := qdrant.Host cfg; qdrant.Port := qdrant.Port cfg;
                      qdrant.APIKey := qdrant.APIKey cfg;
                      qdrant.UseTLS := useTLS |}) k4).
Proof.
  split; [eexists; reflexivity |].
  eexists; eexists; split; [reflexivity |].
  repeat split; eexists; unfold QdrantStore.NewQdrantStore;
    rewrite fold_left_app; reflexivity.
Qed.

(** When the client cannot be created, [NewQdrantStore] returns that error
    wrapped, with the cause one [Unwrap] away, and has made no other call:
    no probe, and no [Close] of a client it never had. *)
Theorem NewQdrantStore_client_failure {W : Type}
  (answer : forall X, qdrant.Call X -> W -> X * W)
  (opts : list QdrantStore.Option) (w : W) (cfg : qdrant.Config) (e : error) :
  cfg = QdrantStore.config_of
          (fold_left (fun o (opt : QdrantStore.Option) => opt o) opts
             QdrantStore.DefaultOptions) ->
  fst (answer _ (qdrant.NewClient cfg) w) = Err e ->
  exists err,
    run answer (QdrantStore.NewQdrantStore opts) w
    = (Err err, snd (answer _ (qdrant.NewClient cfg) w),
       [Entry (qdrant.NewClient cfg) (Err e)])
    /\ error_message err = "failed to create qdrant client: " ++ error_message e
    /\ Unwrap err = Some e.
Proof.
  intros -> Hfail.
  eexists; split.
  - unfold QdrantStore.NewQdrantStore; cbn [bind call run].
    destruct (answer _ _ w) as [r w1]; simpl in Hfail; subst r.
    reflexivity.
  - split; reflexivity.
Qed.

Lemma NewQdrantStore_client_failure_witness :
  exists err,
    run Stubs.unreachableQdrant
      (QdrantStore.NewQdrantStore [QdrantStore.WithHost "qdrant.internal"]) 0%nat
    = (Err err, 1%nat,
       [Entry (qdrant.NewClient
                 {| qdrant.Host := "qdrant.internal"; qdrant.Port := 6334;
                    qdrant.APIKey := ""; qdrant.UseTLS := false |})
          (Err (ErrExternal "no such host"))])
    /\ error_message err = "failed to create qdrant client: no such host"
    /\ Unwrap err = Some (ErrExternal "no such host").
Proof.
  apply (NewQdrantStore_client_failure Stubs.unreachableQdrant
           [QdrantStore.WithHost "qdrant.internal"] 0%nat).
  - reflexivity.
  - reflexivity.
Defined.

(** [Close] goes to the client every time: the store does not forget its
    client once closed, so closing twice closes the client twice, the
    second answer being the one returned.  A store with no client makes no
    call and returns nil. *)
Theorem QdrantStore_Close_every_time {W : Type}
  (answer : forall X, qdrant.Call X -> W -> X * W) (w : W) :
  (forall c,
      let s := {| QdrantStore.client := Some c |} in
      let first := answer _ (qdrant.ClientClose c) w in
      let second := answer _ (qdrant.ClientClose c) (snd first) in
      run answer (bind (QdrantStore.Close s) (fun _ => QdrantStore.Close s)) w
      = (fst second, snd second,
         [Entry (qdrant.ClientClose c) (fst first);
          Entry (qdrant.ClientClose c) (fst second)]))
  /\ run answer (bind (QdrantStore.Close {| QdrantStore.client := None |})
                   (fun _ => QdrantStore.Close {| QdrantStore.client := None |})) w
     = (None, w, []).
Proof.
  split; [| reflexivity].
  intros c; cbn zeta.
  unfold QdrantStore.Close; cbn [QdrantStore.client bind call run].
  destruct (answer _ (qdrant.ClientClose c) w) as [x w1]; cbn [fst snd].
  destruct (answer _ (qdrant.ClientClose c) w1) as [y w2]; reflexivity.
Qed.

(** ** The public agent endpoint *)

Section GetCard.

Import AgentsHandler.

Context {W : Type} (answer : forall X, Call X -> W -> X * W).

Lemma run_handleGetCard (agentID : string) (w : W) :
  run answer (handleGetCard agentID) w
  = let '(r, w1) := answer _ (Registry (registry.StoreCall (store.GetAgent agentID))) w in
    match r with
    | Err err =>
        let reply :=
          if Is_ErrNotFound err then
            writeError StatusNotFound "AGENT_NOT_FOUND"
              ("agent with ID '" ++ agentID ++ "' not found")
          else
            writeError StatusInternalServerError "INTERNAL_ERROR"
              "internal server error" in
        let '(u, w2) := answer _ reply w1 in
        (u, w2, [Entry (Registry (registry.StoreCall (store.GetAgent agentID))) (Err err); Entry reply u])
    | Ok agent =>
        let '(u1, w2) := answer _ (HeaderSet "Content-Type" "application/json") w1 in
        let '(x, w3) := answer _ (EncodeCard (store.Card agent)) w2 in
        (tt, w3,
         [Entry (Registry (registry.StoreCall (store.GetAgent agentID))) (Ok agent);
          Entry (HeaderSet "Content-Type" "application/json") u1;
          Entry (EncodeCard (store.Card agent)) x])
    end.
Proof.
  unfold handleGetCard, registry.Get; cbn [translate call bind run].
  destruct (answer _ _ w) as [[agent | err] w1]; cbn [bind call run].
  - destruct (answer _ (HeaderSet _ _) w1) as [u1 w2]; cbn [bind call run].
    destruct (answer _ (EncodeCard _) w2) as [x w3]; reflexivity.
  - destruct (Is_ErrNotFound err); cbn [bind call run];
      destruct (answer _ (writeError _ _ _) w1) as [u w2]; reflexivity.
Qed.

End GetCard.

(** When the lookup fails with [ErrNotFound], bare or wrapped at any depth,
    [handleGetCard] answers 404 with the code [AGENT_NOT_FOUND] and a
    message that quotes the id as it came in the path; it writes nothing
    else. *)
Theorem handleGetCard_not_found {W : Type}
  (answer : forall X, AgentsHandler.Call X -> W -> X * W)
  (agentID : string) (w : W) (err : error) :
  fst (answer _ (AgentsHandler.Registry (registry.StoreCall (store.GetAgent agentID))) w)
    = Err err ->
  Is_ErrNotFound err = true ->
  snd (run answer (AgentsHandler.handleGetCard agentID) w)
  = [Entry (AgentsHandler.Registry (registry.StoreCall (store.GetAgent agentID))) (Err err);
     Entry (AgentsHandler.writeError 404 "AGENT_NOT_FOUND"
              ("agent with ID '" ++ agentID ++ "' not found")) tt].
Proof.
  intros Hget Hnf.
  rewrite run_handleGetCard.
  destruct (answer _ _ w) as [r w1]; simpl in Hget; subst r.
  rewrite Hnf; cbv zeta.
  destruct (answer _ (AgentsHandler.writeError _ _ _) w1) as [[] w2]; reflexivity.
Qed.

Lemma handleGetCard_not_found_witness :
  snd (run (Stubs.endpoint
              (Stubs.stubStore (fun _ => Err (Wrapf "qdrant: " ErrNotFound)) None))
         (AgentsHandler.handleGetCard "no/such agent") Stubs.stubWorld)
  = [Entry (AgentsHandler.Registry (registry.StoreCall (store.GetAgent "no/such agent")))
       (Err (Wrapf "qdrant: " ErrNotFound));
     Entry (AgentsHandler.writeError 404 "AGENT_NOT_FOUND"
              "agent with ID 'no/such agent' not found") tt].
Proof.
  apply (handleGetCard_not_found
           (Stubs.endpoint
              (Stubs.stubStore (fun _ => Err (Wrapf "qdrant: " ErrNotFound)) None))
           "no/such agent" Stubs.stubWorld (Wrapf "qdrant: " ErrNotFound)).
  - reflexivity.
  - reflexivity.
Defined.

(** When the lookup fails with any other error, [handleGetCard] answers
    500 with a fixed code and a fixed message: nothing of the error, and
    nothing of the id, reaches the response. *)
Theorem handleGetCard_internal_error_is_opaque {W : Type}
  (answer : forall X, AgentsHandler.Call X -> W -> X * W)
  (agentID : string) (w : W) (err : error) :
  fst (answer _ (AgentsHandler.Registry (registry.StoreCall (store.GetAgent agentID))) w)
    = Err err ->
  Is_ErrNotFound err = false ->
  snd (run answer (AgentsHandler.handleGetCard agentID) w)
  = [Entry (AgentsHandler.Registry (registry.StoreCall (store.GetAgent agentID))) (Err err);
     Entry (AgentsHandler.writeError 500 "INTERNAL_ERROR" "internal server error") tt].
Proof.
  intros Hget Hnf.
  rewrite run_handleGetCard.
  destruct (answer _ _ w) as [r w1]; simpl in Hget; subst r.
  rewrite Hnf; cbv zeta.
  destruct (answer _ (AgentsHandler.writeError _ _ _) w1) as [[] w2]; reflexivity.
Qed.

Lemma handleGetCard_internal_error_is_opaque_witness :
  snd (run (Stubs.endpoint Stubs.brokenStore)
         (AgentsHandler.handleGetCard "test-agent") Stubs.stubWorld)
  = [Entry (AgentsHandler.Registry (registry.StoreCall (store.GetAgent "test-agent")))
       (Err (ErrExternal "connection lost"));
     Entry (AgentsHandler.writeError 500 "INTERNAL_ERROR" "internal server error") tt].
Proof.
  apply (handleGetCard_internal_error_is_opaque (Stubs.endpoint Stubs.brokenStore)
           "test-agent" Stubs.stubWorld (ErrExternal "connection lost")).
  - reflexivity.
  - reflexivity.
Defined.

(** When the agent is found, [handleGetCard] sets the content type and
    encodes the card of the agent, and only the card: the tags, the
    embedding and the timestamps are not written.  It never calls
    [WriteHeader] or [writeError], and a failure of the encoder changes
    nothing of what it does. *)
Theorem handleGetCard_writes_the_card_only {W : Type}
  (answer : forall X, AgentsHandler.Call X -> W -> X * W)
  (agentID : string) (w : W) (agent : store.RegisteredAgent) :
  fst (answer _ (AgentsHandler.Registry (registry.StoreCall (store.GetAgent agentID))) w)
    = Ok agent ->
  exists x,
    snd (run answer (AgentsHandler.handleGetCard agentID) w)
    = [Entry (AgentsHandler.Registry (registry.StoreCall (store.GetAgent agentID)))
         (Ok agent);
       Entry (AgentsHandler.HeaderSet "Content-Type" "application/json") tt;
       Entry (AgentsHandler.EncodeCard (store.Card agent)) x].
Proof.
  intros Hget.
  rewrite run_handleGetCard.
  destruct (answer _ _ w) as [r w1]; simpl in Hget; subst r.
  destruct (answer _ (AgentsHandler.HeaderSet _ _) w1) as [[] w2].
  destruct (answer _ (AgentsHandler.EncodeCard _) w2) as [x w3].
  exists x; reflexivity.
Qed.

Lemma handleGetCard_writes_the_card_only_witness :
  exists x,
    snd (run (Stubs.endpoint Stubs.readOnlyStore)
           (AgentsHandler.handleGetCard "agent-7") Stubs.stubWorld)
    = [Entry (AgentsHandler.Registry (registry.StoreCall (store.GetAgent "agent-7")))
         (Ok (Fixtures.validAgent "agent-7" 1600000000%Z));
       Entry (AgentsHandler.HeaderSet "Content-Type" "application/json") tt;
       Entry (AgentsHandler.EncodeCard Fixtures.validAgentCard) x].
Proof.
  apply (handleGetCard_writes_the_card_only (Stubs.endpoint Stubs.readOnlyStore)
           "agent-7" Stubs.stubWorld (Fixtures.validAgent "agent-7" 1600000000%Z)).
  reflexivity.
Defined.

(** Whatever the store and the writer answer, and whatever the id is,
    [handleGetCard] starts with one lookup of the id as given, never asks
    the store to create, update or delete, and always writes a response. *)
Theorem handleGetCard_reads_only_and_always_answers {W : Type}
  (answer : forall X, AgentsHandler.Call X -> W -> X * W)
  (agentID : string) (w : W) :
  let tr := snd (run answer (AgentsHandler.handleGetCard agentID) w) in
  (exists r rest,
      tr = Entry (AgentsHandler.Registry (registry.StoreCall (store.GetAgent agentID))) r
           :: rest
      /\ existsb (fun en => negb (AgentsHandler.is_writer_call en)) rest = false)
  /\ existsb AgentsHandler.is_store_write tr = false
  /\ existsb AgentsHandler.is_writer_call tr = true.
Proof.
  cbn zeta; rewrite run_handleGetCard.
  destruct (answer _ _ w) as [[agent | err] w1].
  - destruct (answer _ (AgentsHandler.HeaderSet _ _) w1) as [u1 w2].
    destruct (answer _ (AgentsHandler.EncodeCard _) w2) as [x w3].
    split; [do 2 eexists; split; reflexivity | split; reflexivity].
  - destruct (Is_ErrNotFound err); cbv zeta;
      destruct (answer _ (AgentsHandler.writeError _ _ _) w1) as [u w2];
      (split; [do 2 eexists; split; reflexivity | split; reflexivity]).
Qed.

(** ** The server: request logging and construction *)

Lemma run_bind {E : Type -> Type} {W R S : Type}
  (answer : forall X, E X -> W -> X * W) (p : prog E R) (f : R -> prog E S) (w : W) :
  run answer (bind p f) w
  = (fst (fst (run answer (f (fst (fst (run answer p w)))) (snd (fst (run answer p w))))),
     snd (fst (run answer (f (fst (fst (run answer p w)))) (snd (fst (run answer p w))))),
     (snd (run answer p w)
        ++ snd (run answer (f (fst (fst (run answer p w)))) (snd (fst (run answer p w)))))%list).
Proof.
  revert w; induction p as [r | X e k IH]; intros w; cbn [bind run].
  - cbn [fst snd app].
    destruct (run answer (f r) w) as [[s w2] tr2]; reflexivity.
  - destruct (answer X e w) as [x w1].
    rewrite IH.
    destruct (run answer (k x) w1) as [[r w2] tr1]; cbn [fst snd].
    destruct (run answer (f r) w2) as [[s w3] tr2]; reflexivity.
Qed.

Section Logging.

Import server.

Context {Other : Type -> Type} {W : Type}.
Context (answer : forall X, Call Other X -> W -> X * W).

Lemma last_code_step {X : Type} (e : HandlerCall Other X) (x : X)
  (tr : list (entry (HandlerCall Other))) (rw : responseWriter) :
  last_code (Entry e x :: tr) (status rw) = last_code tr (status (status_after e rw)).
Proof.
  unfold last_code; cbn [fold_left]; f_equal.
  destruct e as [Y wc | Y o]; [destruct wc |]; reflexivity.
Qed.

(** Running a handler against the wrapping writer is running it against
    the writer itself, while the last code given to [WriteHeader] is kept. *)
Lemma run_serveWrapped (p : prog (HandlerCall Other) unit) :
  forall (rw : responseWriter) (w : W),
    run answer (serveWrapped rw p) w
    = ({| status := last_code (snd (run (inner answer) p w)) (status rw) |},
       snd (fst (run (inner answer) p w)),
       map passed_on (snd (run (inner answer) p w))).
Proof.
  induction p as [u | X e k IH]; intros rw w.
  - destruct rw; reflexivity.
  - cbn [serveWrapped run].
    change (inner answer X e w) with (answer X (Next e) w).
    destruct (answer X (Next e) w) as [x w1].
    rewrite IH.
    destruct (run (inner answer) (k x) w1) as [[v w2] tr]; cbn [fst snd map passed_on].
    now rewrite last_code_step.
Qed.

Lemma run_loggingMiddleware (logger : Logger)
  (next : Request -> prog (HandlerCall Other) unit) (r : Request) (w : W) :
  let t0 := fst (answer _ TimeNow w) in
  let w0 := snd (answer _ TimeNow w) in
  let tr := snd (run (inner answer) (next r) w0) in
  let w1 := snd (fst (run (inner answer) (next r) w0)) in
  let t1 := fst (answer _ TimeNow w1) in
  let w2 := snd (answer _ TimeNow w1) in
  let line := LoggerInfo logger "request"
                (request_args r (last_code tr StatusOK) (Milliseconds (t1 - t0)%Z)) in
  run answer (loggingMiddleware logger next r) w
  = (fst (answer _ line w2), snd (answer _ line w2),
     Entry TimeNow t0
       :: (map passed_on tr
             ++ [Entry TimeNow t1; Entry line (fst (answer _ line w2))])%list).
Proof.
  cbv zeta; unfold loggingMiddleware, Time.
  cbn [bind call run].
  destruct (answer Z TimeNow w) as [t0 w0]; cbn [fst snd].
  rewrite run_bind, run_serveWrapped.
  cbn [status bind call run fst snd].
  destruct (answer Z TimeNow (snd (fst (run (inner answer) (next r) w0)))) as [t1 w2];
    cbn [fst snd].
  unfold request_args.
  destruct (answer unit _ w2) as [u w3]; reflexivity.
Qed.

Lemma last_code_none (tr : list (entry (HandlerCall Other))) (default : Z) :
  forallb no_header_code tr = true ->
  last_code tr default = default.
Proof.
  unfold last_code; revert default.
  induction tr as [| en tr IH]; intros default H; [reflexivity |].
  cbn [forallb] in H; apply andb_true_iff in H as [Hen Htr].
  unfold no_header_code in Hen.
  cbn [fold_left]; destruct (header_code en); [discriminate | now apply IH].
Qed.

Lemma last_code_app (a b : list (entry (HandlerCall Other))) (default : Z) :
  last_code (a ++ b) default = last_code b (last_code a default).
Proof. unfold last_code; apply fold_left_app. Qed.

Lemma filter_passed_on (tr : list (entry (HandlerCall Other))) :
  filter is_next (map passed_on tr) = map passed_on tr.
Proof.
  induction tr as [| [X e x] tr IH]; [reflexivity |].
  cbn [map passed_on filter is_next]; now rewrite IH.
Qed.

End Logging.

(** For a handler that returns and that uses its writer through [Header],
    [Write] and [WriteHeader] only, the logging middleware changes nothing
    of what the handler does: the calls of the wrapped handler, its own
    clock readings and log line left aside, are the calls the handler
    makes when it runs by itself, in the same order and with the same
    answers; [WriteHeader] on the wrapping writer reaches the writer
    behind it.  (The wrapping writer has these three methods and no other:
    a handler that asks its writer for more, [http.Flusher] say, is not
    among the handlers meant here.) *)
Theorem loggingMiddleware_is_transparent {Other : Type -> Type} {W : Type}
  (answer : forall X, server.Call Other X -> W -> X * W)
  (logger : server.Logger)
  (next : server.Request -> prog (server.HandlerCall Other) unit)
  (r : server.Request) (w : W) :
  filter server.is_next (snd (run answer (server.loggingMiddleware logger next r) w))
  = map server.passed_on
      (snd (run (server.inner answer) (next r) (snd (answer _ server.TimeNow w)))).
Proof.
  rewrite run_loggingMiddleware; cbn [snd filter server.is_next].
  rewrite filter_app, filter_passed_on; cbn [filter server.is_next].
  apply app_nil_r.
Qed.

(** The wrapped handler reads the clock, lets the handler run, reads the
    clock again and logs one line, the last thing it does.  The status on
    that line is the code of the last [WriteHeader] of the handler, and 200
    when the handler never called [WriteHeader]. *)
Theorem loggingMiddleware_logs_the_last_status {Other : Type -> Type} {W : Type}
  (answer : forall X, server.Call Other X -> W -> X * W)
  (logger : server.Logger)
  (next : server.Request -> prog (server.HandlerCall Other) unit)
  (r : server.Request) (w : W) :
  let tr := snd (run (server.inner answer) (next r) (snd (answer _ server.TimeNow w))) in
  (exists t0 t1 u,
      snd (run answer (server.loggingMiddleware logger next r) w)
      = Entry server.TimeNow t0
          :: (map server.passed_on tr
                ++ [Entry server.TimeNow t1;
                    Entry (server.LoggerInfo logger "request"
                             (server.request_args r (server.last_code tr 200)
                                (server.Milliseconds (t1 - t0)%Z))) u])%list)
  /\ (forallb server.no_header_code tr = true -> server.last_code tr 200 = 200%Z)
  /\ (forall before code u after,
        tr = (before
                ++ Entry (server.ToWriter (server.WriteHeader code)) u :: after)%list ->
        forallb server.no_header_code after = true ->
        server.last_code tr 200 = code).
Proof.
  cbv zeta; split; [| split].
  - rewrite run_loggingMiddleware; cbn [snd].
    do 3 eexists; reflexivity.
  - apply last_code_none.
  - intros before code u after -> Hafter.
    rewrite last_code_app.
    change (server.last_code (Entry (server.ToWriter (server.WriteHeader code)) u :: after)
              (server.last_code before 200))
      with (server.last_code after code).
    now apply last_code_none.
Qed.

Example loggingMiddleware_logs_404 :
  snd (run Stubs.serverWorld
         (server.loggingMiddleware 3%nat Stubs.notFoundHandler Stubs.getRequest) 0%nat)
  = [ Entry server.TimeNow 1700000000000000000%Z;
      Entry (server.Next (server.ToWriter (server.HeaderSet "Content-Type" "text/plain"))) tt;
      Entry (server.Next (server.ToWriter (server.WriteHeader 404))) tt;
      Entry (server.Next (server.ToWriter (server.Write "not found"))) (9%Z, None);
      Entry server.TimeNow 1700000000002500000%Z;
      Entry (server.LoggerInfo 3%nat "request"
               [ ("method", server.AString "GET");
                 ("path", server.AString "/health");
                 ("status", server.AInt 404);
                 ("duration_ms", server.AInt 2);
                 ("remote_addr", server.AString "127.0.0.1:50000") ]) tt ].
Proof. reflexivity. Qed.

(** When the clock has not gone back between the two readings, the
    duration on the log line is the whole number of milliseconds elapsed,
    rounded down: it is not negative and is less than one millisecond
    short. *)
Theorem loggingMiddleware_duration_rounds_down {Other : Type -> Type} {W : Type}
  (answer : forall X, server.Call Other X -> W -> X * W)
  (logger : server.Logger)
  (next : server.Request -> prog (server.HandlerCall Other) unit)
  (r : server.Request) (w : W) (t0 t1 : Time) :
  fst (answer _ server.TimeNow w) = t0 ->
  fst (answer _ server.TimeNow
         (snd (fst (run (server.inner answer) (next r) (snd (answer _ server.TimeNow w))))))
    = t1 ->
  (t0 <= t1)%Z ->
  exists before code ms u,
    snd (run answer (server.loggingMiddleware logger next r) w)
    = (before
         ++ [Entry (server.LoggerInfo logger "request" (server.request_args r code ms)) u])%list
    /\ (0 <= ms)%Z
    /\ (1000000 * ms <= t1 - t0 < 1000000 * (ms + 1))%Z.
Proof.
  intros H0 H1 Hle.
  rewrite run_loggingMiddleware; cbn [snd].
  rewrite H0, H1.
  eexists (_ :: _ ++ [_])%list; do 3 eexists.
  split.
  - rewrite <- app_comm_cons, <- app_assoc; reflexivity.
  - unfold server.Milliseconds.
    rewrite Z.quot_div_nonneg by lia.
    pose proof (Z.mul_div_le (t1 - t0) 1000000 ltac:(lia)).
    pose proof (Z.mul_succ_div_gt (t1 - t0) 1000000 ltac:(lia)).
    split; [apply Z.div_pos; lia | lia].
Qed.

Lemma loggingMiddleware_duration_rounds_down_witness :
  exists before code ms u,
    snd (run Stubs.serverWorld
           (server.loggingMiddleware 3%nat Stubs.plainHandler Stubs.getRequest) 0%nat)
    = (before
         ++ [Entry (server.LoggerInfo 3%nat "request"
                      (server.request_args Stubs.getRequest code ms)) u])%list
    /\ (0 <= ms)%Z
    /\ (1000000 * ms <= 1700000000002500000 - 1700000000000000000 < 1000000 * (ms + 1))%Z.
Proof.
  apply (loggingMiddleware_duration_rounds_down Stubs.serverWorld 3%nat
           Stubs.plainHandler Stubs.getRequest 0%nat).
  - reflexivity.
  - reflexivity.
  - vm_compute; discriminate.
Defined.

(** [New] listens on the port of its options, whatever the number: the
    address is a colon and the port in decimal, from which the port reads
    back.  A [WithPort] given last decides the port and leaves the
    timeouts and the logger as the options before it made them; the
    handler served is the given one inside the logging middleware. *)
Theorem New_listens_on_the_last_port {Other : Type -> Type}
  (handler : server.Request -> prog (server.HandlerCall Other) unit)
  (options : list server.Option) (port : Z) :
  let before := server.New handler options in
  let srv := server.New handler (options ++ [server.WithPort port]) in
  server.port_of_Addr (server.http.Addr (server.httpServer before))
    = Some (server.Port (server.opts before))
  /\ server.port_of_Addr (server.http.Addr (server.httpServer srv)) = Some port
  /\ server.http.ReadTimeout (server.httpServer srv)
     = server.http.ReadTimeout (server.httpServer before)
  /\ server.http.WriteTimeout (server.httpServer srv)
     = server.http.WriteTimeout (server.httpServer before)
  /\ server.http.IdleTimeout (server.httpServer srv)
     = server.http.IdleTimeout (server.httpServer before)
  /\ server.ShutdownTimeout (server.opts srv)
     = server.ShutdownTimeout (server.opts before)
  /\ server.logger srv = server.logger before
  /\ server.http.Handler (server.httpServer srv)
     = server.loggingMiddleware (server.logger before) handler.
Proof.
  assert (Hport : forall p, server.port_of_Addr (":" ++ fmtD p) = Some p).
  { intros p; unfold fmtD; cbn [append server.port_of_Addr].
    rewrite NilEmpty.isi; cbn [option_map].
    now rewrite DecimalZ.of_to. }
  cbv zeta; unfold server.New.
  rewrite fold_left_app; cbn.
  repeat split; apply Hport.
Qed.

Example New_defaults_and_negative_port :
  server.http.Addr (server.httpServer (server.New Stubs.plainHandler [])) = ":8080"
  /\ server.http.Addr
       (server.httpServer
          (server.New Stubs.plainHandler
             [server.WithPort 9000%Z; server.WithIdleTimeout 5%Z; server.WithPort (-1)%Z]))
     = ":-1".
Proof. split; reflexivity. Qed.

(** ** The registry service: creation followed by an update *)

(** On a store that keeps the contract, an update that succeeds right after
    a creation returns a record with the id of the creation, the card and
    tags of the update, the creation's clock reading as [CreatedAt] and the
    next reading as [UpdatedAt]; so [CreatedAt] is not after [UpdatedAt]
    as long as the clock does not go back between the two. *)
Theorem Create_then_Update_keeps_creation_time {St : Type}
  (impl : registry.StoreImpl St) (clock : nat -> Time) (w w2 : registry.World St)
  (input : registry.CreateInput.t) (card : a2a.AgentCard) (tags : list string)
  (result : store.RegisteredAgent) (tr : list (entry registry.Sys)) :
  Spec.StoreContract impl ->
  registry.validateAgentID (registry.CreateInput.ID input) = None ->
  registry.ValidateAgentCard (registry.CreateInput.Card input) = None ->
  fst (impl _ (store.GetAgent (registry.CreateInput.ID input)) (registry.the_store w))
    = Err ErrNotFound ->
  registry.ValidateAgentCard card = None ->
  run (registry.answer_sys impl clock)
    (registry.Update {| registry.UpdateInput.ID := registry.CreateInput.ID input;
                        registry.UpdateInput.Card := card;
                        registry.UpdateInput.Tags := tags |})
    (snd (fst (run (registry.answer_sys impl clock) (registry.Create input) w)))
  = (Ok result, w2, tr) ->
  store.ID result = registry.CreateInput.ID input
  /\ store.Card result = card
  /\ store.Tags result = tags
  /\ store.Embedding result = None
  /\ store.CreatedAt result = clock (registry.clock_reads w)
  /\ store.UpdatedAt result = clock (S (registry.clock_reads w))
  /\ ((clock (registry.clock_reads w) <= clock (S (registry.clock_reads w)))%Z ->
      (store.CreatedAt result <= store.UpdatedAt result)%Z).
Proof.
  intros HC Hid Hcard Habsent Hcard' Hrun.
  pose (agent := Spec.created input (clock (registry.clock_reads w))).
  assert (Hcreate : fst (impl _ (store.CreateAgent agent) (registry.the_store w)) = None)
    by (apply (Spec.create_absent impl HC); exact Habsent).
  rewrite (run_Create_valid impl clock input w Hid Hcard) in Hrun; fold agent in Hrun.
  cbn [fst snd] in Hrun.
  pose proof (Spec.get_after_create impl HC agent (registry.the_store w) Hcreate) as Hget.
  change (store.ID agent) with (registry.CreateInput.ID input) in Hget.
  destruct (impl _ (store.GetAgent (registry.CreateInput.ID input))
              (snd (impl _ (store.CreateAgent agent) (registry.the_store w))))
    as [r s1] eqn:E.
  simpl in Hget; subst r.
  rewrite (run_Update_valid impl clock
             {| registry.UpdateInput.ID := registry.CreateInput.ID input;
                registry.UpdateInput.Card := card;
                registry.UpdateInput.Tags := tags |}
             {| registry.the_store :=
                  snd (impl _ (store.CreateAgent agent) (registry.the_store w));
                registry.clock_reads := S (registry.clock_reads w) |}
             agent s1 Hcard' E) in Hrun.
  cbn [registry.clock_reads] in Hrun.
  destruct (fst (impl _ (store.UpdateAgent _) s1)) as [e |]; [discriminate |].
  injection Hrun as <- _ _.
  repeat split; auto.
Qed.

Lemma Create_then_Update_keeps_creation_time_witness :
  exists result,
    fst (fst (run (registry.answer_sys MemoryStore.impl Fixtures.tickingClock)
                (registry.Update Fixtures.updateInput)
                (snd (fst (run (registry.answer_sys MemoryStore.impl Fixtures.tickingClock)
                             (registry.Create Fixtures.validCreateInput)
                             Fixtures.freshWorld)))))
    = Ok result
    /\ store.ID result = "test-agent"
    /\ store.Card result = registry.UpdateInput.Card Fixtures.updateInput
    /\ store.Tags result = ["updated"]
    /\ store.Embedding result = None
    /\ store.CreatedAt result = 1700000000%Z
    /\ store.UpdatedAt result = 1700000001%Z
    /\ ((1700000000 <= 1700000001)%Z ->
        (store.CreatedAt result <= store.UpdatedAt result)%Z).
Proof.
  eexists; split; [reflexivity |].
  eapply (Create_then_Update_keeps_creation_time MemoryStore.impl Fixtures.tickingClock
            Fixtures.freshWorld _ Fixtures.validCreateInput
            (registry.UpdateInput.Card Fixtures.updateInput) ["updated"]).
  - exact MemoryStore_contract.
  - reflexivity.
  - reflexivity.
  - reflexivity.
  - reflexivity.
  - reflexivity.
Defined.

Lemma validateAgentID_concatenation_witness :
  registry.validateAgentID ("team-" ++ "alpha_01") = None
  /\ registry.validateAgentID "team-" = None.
Proof.
  destruct (validateAgentID_concatenation "team-" "alpha_01") as [Hjoin Hhead].
  split.
  - apply Hjoin; [reflexivity | reflexivity | simpl; lia].
  - apply Hhead; [reflexivity | discriminate].
Defined.
